(** * chytorch: LoRA embedding and transformer encoder layer

    A shallow embedding of [chytorch/nn/lora/embedding.py] and
    [chytorch/nn/lora/transformer.py].

    Tensors are contiguous row-major arrays: a shape and a flat list of
    elements.  Floating-point scalars are kept abstract behind the class
    [Scalar]; the instance [float_scalar] interprets them with the kernel's
    binary64 numbers so that every definition can be run on concrete data.
    Python exceptions are values of [exn]; a method that mutates [self]
    returns the new object next to its result. *)

From Stdlib Require Import List ZArith Lia Bool Floats Uint63.
Import ListNotations.

Set Implicit Arguments.

(** ** Exceptions and the error monad *)

Inductive exn : Type :=
| IndexError
| RuntimeError
| ValueError
| TypeError
| AttributeError
| AssertionError.

Inductive result (A : Type) : Type :=
| Ok (a : A)
| Raise (e : exn).

Arguments Ok {A} a.
Arguments Raise {A} e.

Definition bind {A B : Type} (m : result A) (k : A -> result B) : result B :=
  match m with
  | Ok a => k a
  | Raise e => Raise e
  end.

Notation "x <- m ;; k" := (bind m (fun x => k))
  (at level 61, m at next level, right associativity).

(** Reading an attribute that may have been removed with [del]. *)
Definition getattr {A : Type} (o : option A) : result A :=
  match o with
  | Some a => Ok a
  | None => Raise AttributeError
  end.

(** ** Scalars *)

Class Scalar : Type := {
  F : Type;
  zero : F;
  neg_inf : F;
  fadd : F -> F -> F;
  fmul : F -> F -> F;
  fdiv : F -> F -> F;
  (** conversion of a Python int, as in [lora_alpha / lora_r] *)
  of_Z : Z -> F;
  (** [vnorm p row] is [row.norm(p)] *)
  vnorm : F -> list F -> F;
  fgt : F -> F -> bool;
  (** the constant 1e-7 of [embedding_renorm_] *)
  eps7 : F
}.

(** ** Tensors *)

Record tensor (A : Type) : Type := mkTensor {
  shape : list nat;
  data : list A
}.

Arguments mkTensor {A} shape data.

Definition numel (shp : list nat) : nat := fold_right Nat.mul 1%nat shp.

Definition ndim {A : Type} (t : tensor A) : nat := length (shape t).

(** [t.size(k)] of an existing dimension *)
Definition size {A : Type} (t : tensor A) (k : nat) : nat := nth k (shape t) 0%nat.

(** Row-major table of [f i j], [i < n], [j < m]. *)
Definition tabulate2 {A : Type} (n m : nat) (f : nat -> nat -> A) : list A :=
  concat (map (fun i => map (f i) (seq 0 m)) (seq 0 n)).

(** A Python int that torch can unpack to a 64-bit integer. *)
Definition fits_int64 (z : Z) : bool := ((- 2 ^ 63 <=? z) && (z <? 2 ^ 63))%Z.

(** [torch.empty] on int sizes: the arguments are unpacked to int64 first
    ([TypeError] for an int that does not fit), then the sizes are checked
    ([RuntimeError] for a negative one) before allocating. *)
Definition empty (dims : list Z) : result (list nat) :=
  if negb (forallb fits_int64 dims) then Raise TypeError
  else if forallb (fun d => 0 <=? d)%Z dims then Ok (map Z.to_nat dims)
  else Raise RuntimeError.

(** A Python number passed where an int is expected; a Python float is a
    binary64 whatever the dtype of the tensors. *)
Inductive pynum : Type :=
| PyInt (z : Z)
| PyFloat (f : float).

(** [bool(v)], the test of [if v:]. *)
Definition truthy (v : pynum) : bool :=
  match v with
  | PyInt z => negb (z =? 0)%Z
  | PyFloat f => negb (PrimFloat.eqb f 0%float)
  end.

Fixpoint as_ints (vs : list pynum) : option (list Z) :=
  match vs with
  | [] => Some []
  | PyInt z :: vs' => option_map (cons z) (as_ints vs')
  | PyFloat _ :: _ => None
  end.

(** [torch.empty] on Python numbers: a float among the sizes is a
    [TypeError]. *)
Definition empty_args (dims : list pynum) : result (list nat) :=
  match as_ints dims with
  | Some zs => empty zs
  | None => Raise TypeError
  end.

(** Indexing [t[i]] along a dimension of size [n], for an index that is a
    64-bit integer: an element of an index tensor, or a Python int that
    fits. *)
Definition wrap_index (n : nat) (i : Z) : result nat :=
  if ((0 <=? i) && (i <? Z.of_nat n))%Z then Ok (Z.to_nat i)
  else if ((Z.opp (Z.of_nat n) <=? i) && (i <? 0))%Z then Ok (Z.to_nat (i + Z.of_nat n))
  else Raise IndexError.

(** Python indexing [t[i]] with a Python int [i]: an int that does not fit
    int64 is a [ValueError], raised before the bounds are looked at. *)
Definition index_int (n : nat) (i : Z) : result nat :=
  if fits_int64 i then wrap_index n i else Raise ValueError.

Fixpoint shape_eqb (s1 s2 : list nat) : bool :=
  match s1, s2 with
  | [], [] => true
  | a :: s1', b :: s2' => Nat.eqb a b && shape_eqb s1' s2'
  | _, _ => false
  end.

Section Torch.
Context {SC : Scalar}.

(** Element [i, j] of a 2-D tensor. *)
Definition get2 (t : tensor F) (i j : nat) : F :=
  nth (i * size t 1 + j) (data t) zero.

Definition row (t : tensor F) (i : nat) : list F :=
  map (get2 t i) (seq 0 (size t 1)).

(** [t[i].fill_(v)] and [t[i] *= c] on a 2-D tensor, [i] already wrapped. *)
Definition map_row (g : F -> F) (t : tensor F) (i : nat) : tensor F :=
  mkTensor (shape t)
    (tabulate2 (size t 0) (size t 1)
       (fun a b => if Nat.eqb a i then g (get2 t a b) else get2 t a b)).

Definition fill_row (t : tensor F) (i : nat) (v : F) : tensor F :=
  map_row (fun _ => v) t i.

(** [sum_k a k * b k] for [k < n], accumulated left to right. *)
Definition dot (n : nat) (a b : nat -> F) : F :=
  fold_left (fun acc k => fadd acc (fmul (a k) (b k))) (seq 0 n) zero.

(** [t.transpose(0, 1)] of a 2-D tensor. *)
Definition transpose (t : tensor F) : tensor F :=
  mkTensor [size t 1; size t 0]
    (tabulate2 (size t 1) (size t 0) (fun i j => get2 t j i)).

(** [a @ b] for 2-D operands. *)
Definition matmul (a b : tensor F) : result (tensor F) :=
  if negb (Nat.eqb (ndim a) 2 && Nat.eqb (ndim b) 2) then Raise RuntimeError
  else if negb (Nat.eqb (size a 1) (size b 0)) then Raise RuntimeError
  else Ok (mkTensor [size a 0; size b 1]
             (tabulate2 (size a 0) (size b 1)
                (fun i j => dot (size a 1) (get2 a i) (fun k => get2 b k j)))).

(** [t * c] with a Python float [c]. *)
Definition mul_scalar (t : tensor F) (c : F) : tensor F :=
  mkTensor (shape t) (map (fun v => fmul v c) (data t)).

Fixpoint zip_add (xs ys : list F) : list F :=
  match xs, ys with
  | x :: xs', y :: ys' => fadd x y :: zip_add xs' ys'
  | _, _ => []
  end.

(** [t += u] for operands of one shape (broadcasting is not modelled: a
    different shape is reported as the error torch raises when [u] cannot
    be broadcast to [t]). *)
Definition iadd (t u : tensor F) : result (tensor F) :=
  if shape_eqb (shape t) (shape u)
  then Ok (mkTensor (shape t) (zip_add (data t) (data u)))
  else Raise RuntimeError.

(** [torch.addmm(input, mat1, mat2, alpha=alpha)]: [input + alpha * (mat1 @ mat2)]
    with [input] of the shape of the product.  Each element is written as
    the sum of [input] and the rounded product of [alpha] with the dot
    product; torch's kernels may fuse or reorder these operations, so the
    last bit of an element can differ where one of them rounds.  The values
    are the same wherever no operation rounds, and wherever an infinity or a
    NaN decides the result. *)
Definition addmm (input mat1 mat2 : tensor F) (alpha : F) : result (tensor F) :=
  if negb (Nat.eqb (ndim mat1) 2 && Nat.eqb (ndim mat2) 2) then Raise RuntimeError
  else if negb (Nat.eqb (size mat1 1) (size mat2 0)) then Raise RuntimeError
  else if shape_eqb (shape input) [size mat1 0; size mat2 1]
  then Ok (mkTensor [size mat1 0; size mat2 1]
             (tabulate2 (size mat1 0) (size mat2 1)
                (fun i j => fadd (get2 input i j)
                              (fmul alpha (dot (size mat1 1) (get2 mat1 i) (fun k => get2 mat2 k j))))))
  else Raise RuntimeError.

(** [t.flatten(end_dim=-2)]: dimension [-2] must exist. *)
Definition flatten_end_m2 (t : tensor F) : result (tensor F) :=
  match ndim t with
  | 0%nat | 1%nat => Raise IndexError
  | _ => Ok (mkTensor [numel (removelast (shape t)); last (shape t) 0%nat] (data t))
  end.

(** [t.view(shp)] of a contiguous tensor. *)
Definition view (t : tensor F) (shp : list nat) : result (tensor F) :=
  if Nat.eqb (numel shp) (numel (shape t)) then Ok (mkTensor shp (data t))
  else Raise RuntimeError.

(** *** [torch.embedding_renorm_] and [torch.nn.functional.embedding] *)

Fixpoint insert_sorted (i : Z) (l : list Z) : list Z :=
  match l with
  | [] => [i]
  | j :: l' => if (i <=? j)%Z then i :: l else j :: insert_sorted i l'
  end.

Definition sort_indices (l : list Z) : list Z := fold_right insert_sorted [] l.

(** Rows are renormalised once per index, in increasing order; [self[i]]
    wraps a negative index and raises on one that is out of range.  The rows
    rescaled before the exception stay rescaled. *)
Fixpoint renorm_rows (w : tensor F) (prev : option Z) (idx : list Z) (max_norm p : F)
  : tensor F * result unit :=
  match idx with
  | [] => (w, Ok tt)
  | i :: rest =>
      if match prev with Some j => (i =? j)%Z | None => false end
      then renorm_rows w (Some i) rest max_norm p
      else
        match wrap_index (size w 0) i with
        | Raise e => (w, Raise e)
        | Ok k =>
            let n := vnorm p (row w k) in
            let w' := if fgt n max_norm
                      then map_row (fun v => fmul v (fdiv max_norm (fadd n eps7))) w k
                      else w in
            renorm_rows w' (Some i) rest max_norm p
        end
  end.

Definition embedding_renorm_ (w : tensor F) (input : tensor Z) (max_norm p : F)
  : tensor F * result unit :=
  renorm_rows w None (sort_indices (data input)) max_norm p.

(** [torch.embedding(weight, input)]: the rows of [weight] selected by [input]. *)
Definition torch_embedding (w : tensor F) (input : tensor Z) : result (tensor F) :=
  if negb (Nat.eqb (ndim w) 2) then Raise RuntimeError
  else if forallb (fun i => (0 <=? i) && (i <? Z.of_nat (size w 0)))%Z (data input)
  then Ok (mkTensor (shape input ++ [size w 1])
             (concat (map (fun i => row w (Z.to_nat i)) (data input))))
  else Raise IndexError.

Definition check_padding_idx (n : nat) (padding_idx : option Z) : result unit :=
  match padding_idx with
  | None => Ok tt
  | Some p =>
      if (0 <? p)%Z then (if (p <? Z.of_nat n)%Z then Ok tt else Raise AssertionError)
      else if (p <? 0)%Z then (if (Z.opp (Z.of_nat n) <=? p)%Z then Ok tt else Raise AssertionError)
      else Ok tt
  end.

(** [torch.nn.functional.embedding(input, weight, padding_idx, max_norm,
    norm_type, scale_grad_by_freq, sparse)]; the last two arguments only
    shape the gradient.  The first component is [weight] after the call. *)
Definition embedding (input : tensor Z) (weight : tensor F) (padding_idx : option Z)
    (max_norm : option F) (norm_type : F) (scale_grad_by_freq sparse : bool)
  : tensor F * result (tensor F) :=
  match check_padding_idx (size weight 0) padding_idx with
  | Raise e => (weight, Raise e)
  | Ok _ =>
      let '(w', r) := match max_norm with
                      | None => (weight, Ok tt)
                      | Some m => embedding_renorm_ weight input m norm_type
                      end in
      (w', _ <- r ;; torch_embedding w' input)
  end.

(** *** [torch.cat] *)

Definition slice {A : Type} (t : tensor A) (c o : nat) : list A :=
  firstn c (skipn (o * c) (data t)).

Definition cat2 {A : Type} (a b : tensor A) (dim : nat) : result (tensor A) :=
  if Nat.eqb (ndim a) 0 || Nat.eqb (ndim b) 0 then Raise RuntimeError
  else if shape_eqb (shape a) [0%nat] then Ok b
  else if shape_eqb (shape b) [0%nat] then Ok a
  else if negb (Nat.eqb (ndim a) (ndim b)) then Raise RuntimeError
  else if negb (Nat.ltb dim (ndim a)) then Raise IndexError
  else if negb (shape_eqb (firstn dim (shape a)) (firstn dim (shape b))
                && shape_eqb (skipn (S dim) (shape a)) (skipn (S dim) (shape b)))
  then Raise RuntimeError
  else
    let ca := numel (skipn dim (shape a)) in
    let cb := numel (skipn dim (shape b)) in
    Ok (mkTensor (firstn dim (shape a) ++ [size a dim + size b dim]%nat
                    ++ skipn (S dim) (shape a))
          (concat (map (fun o => slice a ca o ++ slice b cb o)
                     (seq 0 (numel (firstn dim (shape a))))))).

Fixpoint cat_from {A : Type} (acc : tensor A) (ts : list (tensor A)) (dim : nat)
  : result (tensor A) :=
  match ts with
  | [] => Ok acc
  | u :: rest => v <- cat2 acc u dim ;; cat_from v rest dim
  end.

(** [torch.cat(ts, dim=dim)] *)
Definition cat {A : Type} (ts : list (tensor A)) (dim : nat) : result (tensor A) :=
  match ts with
  | [] => Raise RuntimeError
  | t :: rest => if Nat.eqb (ndim t) 0 then Raise RuntimeError else cat_from t rest dim
  end.

End Torch.

(** ** [torch.nn.Embedding], the parent class *)

Module tEmbedding.
Section Defs.
Context {SC : Scalar}.

Record t : Type := mk {
  num_embeddings : Z;
  embedding_dim : Z;
  padding_idx : option Z;
  max_norm : option F;
  norm_type : F;
  scale_grad_by_freq : bool;
  sparse : bool;
  weight : tensor F;
  weight_requires_grad : bool
}.

Definition set_weight (self : t) (w : tensor F) : t :=
  mk (num_embeddings self) (embedding_dim self) (padding_idx self) (max_norm self)
     (norm_type self) (scale_grad_by_freq self) (sparse self) w (weight_requires_grad self).

Definition set_requires_grad (self : t) (b : bool) : t :=
  mk (num_embeddings self) (embedding_dim self) (padding_idx self) (max_norm self)
     (norm_type self) (scale_grad_by_freq self) (sparse self) (weight self) b.

(** The constructor without [_weight]: [normal_w i j] is the value that
    [init.normal_] draws for element [i, j]. *)
Definition __init__ (num_embeddings embedding_dim : Z) (padding_idx : option Z)
    (max_norm : option F) (norm_type : F) (scale_grad_by_freq sparse : bool)
    (normal_w : nat -> nat -> F) : result t :=
  pad <- match padding_idx with
         | None => Ok None
         | Some p =>
             if (0 <? p)%Z
             then (if (p <? num_embeddings)%Z then Ok (Some p) else Raise AssertionError)
             else if (p <? 0)%Z
             then (if (Z.opp num_embeddings <=? p)%Z then Ok (Some (num_embeddings + p)%Z)
                   else Raise AssertionError)
             else Ok (Some p)
         end ;;
  shp <- empty [num_embeddings; embedding_dim] ;;
  let n := nth 0 shp 0%nat in
  let d := nth 1 shp 0%nat in
  let w := mkTensor shp (tabulate2 n d normal_w) in
  w' <- match pad with
        | None => Ok w
        | Some p => k <- wrap_index n p ;; Ok (fill_row w k zero)
        end ;;
  Ok (mk num_embeddings embedding_dim pad max_norm norm_type scale_grad_by_freq sparse w' true).

Definition forward (self : t) (input : tensor Z) : t * result (tensor F) :=
  let '(w', r) := embedding input (weight self) (padding_idx self) (max_norm self)
                    (norm_type self) (scale_grad_by_freq self) (sparse self) in
  (set_weight self w', r).

End Defs.
End tEmbedding.

(** ** [chytorch.nn.lora.Embedding] *)

Module Embedding.
Section Defs.
Context {SC : Scalar}.

(** The attributes that [merge_lora] deletes are optional. *)
Record t : Type := mk {
  base : tEmbedding.t;
  neg_inf_idx : option Z;
  lora_r : Z;
  lora_a : option (tensor F);
  lora_b : option (tensor F);
  lora_alpha : option F;
  _lora_scaling : option F
}.

Definition set_base (self : t) (b : tEmbedding.t) : t :=
  mk b (neg_inf_idx self) (lora_r self) (lora_a self) (lora_b self) (lora_alpha self)
     (_lora_scaling self).

Definition set_lora_a (self : t) (a : option (tensor F)) : t :=
  mk (base self) (neg_inf_idx self) (lora_r self) a (lora_b self) (lora_alpha self)
     (_lora_scaling self).

Definition __init__ (num_embeddings embedding_dim : Z) (padding_idx : option Z)
    (max_norm : option F) (norm_type : F) (scale_grad_by_freq sparse : bool)
    (lora_r : Z) (lora_alpha : F) (neg_inf_idx : option Z)
    (normal_w normal_b : nat -> nat -> F) : result t :=
  b <- tEmbedding.__init__ num_embeddings embedding_dim padding_idx max_norm norm_type
         scale_grad_by_freq sparse normal_w ;;
  b1 <- match neg_inf_idx with
        | None => Ok b
        | Some i =>
            k <- index_int (size (tEmbedding.weight b) 0) i ;;
            Ok (tEmbedding.set_weight b (fill_row (tEmbedding.weight b) k neg_inf))
        end ;;
  if (lora_r =? 0)%Z then Ok (mk b1 neg_inf_idx lora_r None None None None)
  else
    let b2 := tEmbedding.set_requires_grad b1 false in
    sa <- empty [num_embeddings; lora_r] ;;
    sb <- empty [embedding_dim; lora_r] ;;
    let a := mkTensor sa (tabulate2 (nth 0 sa 0%nat) (nth 1 sa 0%nat) (fun _ _ => zero)) in
    let bm := mkTensor sb (tabulate2 (nth 0 sb 0%nat) (nth 1 sb 0%nat) normal_b) in
    Ok (mk b2 neg_inf_idx lora_r (Some a) (Some bm) (Some lora_alpha)
          (Some (fdiv lora_alpha (of_Z lora_r)))).

(** The constructor with any Python number as [lora_r].  With an int it is
    [__init__] above.  With a float the lines before the allocation of the
    factors run in the same way; a float equal to zero is falsy, it leaves
    LoRA off and every later test [if self.lora_r] reads it as rank zero; any
    other float reaches [empty(num_embeddings, lora_r)]. *)
Definition __init__any_rank (num_embeddings embedding_dim : Z) (padding_idx : option Z)
    (max_norm : option F) (norm_type : F) (scale_grad_by_freq sparse : bool)
    (lora_r : pynum) (lora_alpha : F) (neg_inf_idx : option Z)
    (normal_w normal_b : nat -> nat -> F) : result t :=
  match lora_r with
  | PyInt z =>
      __init__ num_embeddings embedding_dim padding_idx max_norm norm_type
        scale_grad_by_freq sparse z lora_alpha neg_inf_idx normal_w normal_b
  | PyFloat _ =>
      b <- tEmbedding.__init__ num_embeddings embedding_dim padding_idx max_norm norm_type
             scale_grad_by_freq sparse normal_w ;;
      b1 <- match neg_inf_idx with
            | None => Ok b
            | Some i =>
                k <- index_int (size (tEmbedding.weight b) 0) i ;;
                Ok (tEmbedding.set_weight b (fill_row (tEmbedding.weight b) k neg_inf))
            end ;;
      if negb (truthy lora_r) then Ok (mk b1 neg_inf_idx 0 None None None None)
      else
        (* [empty_args] raises on a float size, so the lines after the
           allocations are never run with a float rank *)
        _ <- empty_args [PyInt num_embeddings; lora_r] ;;
        _ <- empty_args [PyInt embedding_dim; lora_r] ;;
        Raise TypeError
  end.

Definition forward (self : t) (x : tensor Z) : t * result (tensor F) :=
  let '(b', emb) := tEmbedding.forward (base self) x in
  let self1 := set_base self b' in
  match emb with
  | Raise e => (self1, Raise e)
  | Ok emb =>
      if (lora_r self1 =? 0)%Z then (self1, Ok emb)
      else
        match getattr (lora_a self1) with
        | Raise e => (self1, Raise e)
        | Ok la =>
            let '(la', a) := embedding x la (tEmbedding.padding_idx b') (tEmbedding.max_norm b')
                               (tEmbedding.norm_type b') (tEmbedding.scale_grad_by_freq b')
                               (tEmbedding.sparse b') in
            let self2 := set_lora_a self1 (Some la') in
            (self2,
             a <- a ;;
             ef <- flatten_end_m2 emb ;;
             af <- flatten_end_m2 a ;;
             lb <- getattr (lora_b self2) ;;
             sc <- getattr (_lora_scaling self2) ;;
             r <- addmm ef af (transpose lb) sc ;;
             view r (shape emb))
        end
  end.

Definition merge_lora (self : t) : t * result unit :=
  if (lora_r self =? 0)%Z then (self, Ok tt)
  else
    match (la <- getattr (lora_a self) ;;
           lb <- getattr (lora_b self) ;;
           p <- matmul la (transpose lb) ;;
           sc <- getattr (_lora_scaling self) ;;
           iadd (tEmbedding.weight (base self)) (mul_scalar p sc)) with
    | Raise e => (self, Raise e)
    | Ok w' =>
        let b' := tEmbedding.set_requires_grad (tEmbedding.set_weight (base self) w') true in
        match lora_alpha self with
        | None => (mk b' (neg_inf_idx self) 0%Z None None None (_lora_scaling self),
                   Raise AttributeError)
        | Some _ => (mk b' (neg_inf_idx self) 0%Z None None None None, Ok tt)
        end
    end.

End Defs.
End Embedding.

(** ** [chytorch.nn.lora.EncoderLayer] *)

Module EncoderLayer.
Section Defs.
Context {SC : Scalar}.

(** [x + y] on tensors, with torch's broadcasting. *)
Variable add : tensor F -> tensor F -> result (tensor F).

(** The sublayers come from [.attention], [.linear] and [torch.nn]; the
    layer only composes them, so they are fields holding their forward
    functions.  [self_attn q kv attn_mask need_weights] returns the
    attention output and, when asked, the attention weights. *)
Record t : Type := mk {
  self_attn : tensor F -> tensor F -> tensor F -> bool
              -> result (tensor F * option (tensor F));
  linear1 : tensor F -> result (tensor F);
  linear2 : tensor F -> result (tensor F);
  norm1 : tensor F -> result (tensor F);
  norm2 : tensor F -> result (tensor F);
  dropout1 : tensor F -> result (tensor F);
  dropout2 : tensor F -> result (tensor F);
  dropout3 : tensor F -> result (tensor F);
  activation : tensor F -> result (tensor F);
  norm_first : bool
}.

Definition _ff (self : t) (x : tensor F) : result (tensor F) :=
  l1 <- linear1 self x ;;
  ac <- activation self l1 ;;
  d2 <- dropout2 self ac ;;
  l2 <- linear2 self d2 ;;
  dropout3 self l2.

(** Lines 59-65 of [forward]: the query [nx] and the key-value sequence
    [kv] handed to [self_attn]. *)
Definition attention_inputs (self : t) (x : tensor F) (hidden : option (tensor F))
  : result (tensor F * tensor F) :=
  nx <- (if norm_first self then norm1 self x else Ok x) ;;
  kv <- match hidden with
        | None => Ok nx
        | Some h =>
            h' <- (if norm_first self then norm1 self h else Ok h) ;;
            cat [h'; nx] 0
        end ;;
  Ok (nx, kv).

Definition forward (self : t) (x attn_mask : tensor F) (hidden : option (tensor F))
    (need_embedding need_weights : bool)
  : result (option (tensor F) * option (tensor F)) :=
  qkv <- attention_inputs self x hidden ;;
  ea <- self_attn self (fst qkv) (snd qkv) attn_mask need_weights ;;
  let '(e, a) := ea in
  if need_embedding then
    de <- dropout1 self e ;;
    x1 <- add x de ;;
    if norm_first self then
      n2 <- norm2 self x1 ;;
      f <- _ff self n2 ;;
      o <- add x1 f ;;
      Ok (Some o, a)
    else
      x2 <- norm1 self x1 ;;
      f <- _ff self x2 ;;
      s <- add x2 f ;;
      o <- norm2 self s ;;
      Ok (Some o, a)
  else Ok (None, a).

End Defs.
End EncoderLayer.

(** ** Binary64 scalars, for running the definitions

    torch stores parameters in binary32 by default; the operations and their
    special values (infinities, NaN, signed zero) behave alike. *)

(** Conversion of a Python int to a float.  It is used for the rank in
    [lora_alpha / lora_r], after [torch.empty] has accepted the rank as a
    size, hence for ints below 2^63, which the 63-bit conversion does not
    wrap. *)
Definition float_of_Z (z : Z) : float :=
  match z with
  | Z0 => 0%float
  | Zpos _ => PrimFloat.of_uint63 (Uint63.of_Z z)
  | Zneg _ => PrimFloat.opp (PrimFloat.of_uint63 (Uint63.of_Z (Z.opp z)))
  end.

(** [row.norm(p)] for the orders 1 and 2 (2 is the default [norm_type]);
    other orders need a power function and are left undefined (NaN). *)
Definition float_vnorm (p : float) (xs : list float) : float :=
  if PrimFloat.eqb p 2%float
  then PrimFloat.sqrt (fold_left (fun acc v => PrimFloat.add acc (PrimFloat.mul v v)) xs 0%float)
  else if PrimFloat.eqb p 1%float
  then fold_left (fun acc v => PrimFloat.add acc (PrimFloat.abs v)) xs 0%float
  else nan.

#[export] Instance float_scalar : Scalar := {|
  F := float;
  zero := 0%float;
  neg_inf := neg_infinity;
  fadd := PrimFloat.add;
  fmul := PrimFloat.mul;
  fdiv := PrimFloat.div;
  of_Z := float_of_Z;
  vnorm := float_vnorm;
  fgt := fun a b => PrimFloat.ltb b a;
  eps7 := 0x1.ad7f29abcaf48p-24%float
|}.

(** ** A training step

    One step of [torch.optim.SGD(params, lr=lr, weight_decay=weight_decay)]
    on the base table, with the other options at their defaults.  A
    parameter that does not require grad has no gradient and is skipped.
    Otherwise, element by element, [grad = grad + weight_decay * param] when
    [weight_decay] is not zero, then [param = param + (-lr) * grad]. *)
Definition sgd_step (lr weight_decay : float) (b : @tEmbedding.t float_scalar)
    (grad : tensor float) : @tEmbedding.t float_scalar :=
  if tEmbedding.weight_requires_grad b then
    tEmbedding.set_weight b
      (mkTensor (shape (tEmbedding.weight b))
         (map (fun wg : float * float =>
                 let g := if PrimFloat.eqb weight_decay 0%float then snd wg
                          else PrimFloat.add (snd wg) (PrimFloat.mul weight_decay (fst wg)) in
                 PrimFloat.add (fst wg) (PrimFloat.mul (PrimFloat.opp lr) g))
              (combine (data (tEmbedding.weight b)) (data grad))))
  else b.

(** ** Well-formedness *)

(** A tensor holds as many elements as its shape says. *)
Definition wf_tensor {A : Type} (t : tensor A) : bool :=
  Nat.eqb (length (data t)) (numel (shape t)).

Definition is_matrix {A : Type} (t : tensor A) : bool :=
  Nat.eqb (ndim t) 2 && wf_tensor t.

Definition in_range (n : nat) (x : tensor Z) : bool :=
  forallb (fun i => (0 <=? i) && (i <? Z.of_nat n))%Z (data x).

Definition index_ok (n : nat) (i : Z) : Prop := (0 <= i < Z.of_nat n)%Z.

Section Wf.
Context {SC : Scalar}.

(** The shapes that the constructor sets up and that neither training nor
    [forward] changes: the base table is [num x dim], the padding index is
    normalised, and while LoRA is active the factors are [num x r] and
    [dim x r] and every LoRA attribute is present. *)
Definition wf (s : Embedding.t) : bool :=
  let w := tEmbedding.weight (Embedding.base s) in
  is_matrix w
  && match check_padding_idx (size w 0) (tEmbedding.padding_idx (Embedding.base s)) with
     | Ok _ => true
     | Raise _ => false
     end
  && (if (Embedding.lora_r s =? 0)%Z then true
      else match Embedding.lora_a s, Embedding.lora_b s,
                 Embedding.lora_alpha s, Embedding._lora_scaling s with
           | Some a, Some b, Some _, Some _ =>
               is_matrix a && is_matrix b
               && Nat.eqb (size a 0) (size w 0)
               && Nat.eqb (size b 0) (size w 1)
               && Nat.eqb (size a 1) (size b 1)
           | _, _, _, _ => false
           end).

(** The output the specification describes for an active layer: row [n] of
    the result is the base row of index [x_n] plus [sc] times the product of
    row [x_n] of [a] with the transpose of [b]; the shape is that of [x]
    followed by the embedding dimension. *)
Definition lora_output_spec (w a b : tensor F) (sc : F) (x : tensor Z) : tensor F :=
  mkTensor (shape x ++ [size w 1])
    (concat (map (fun i =>
                    map (fun j => fadd (get2 w (Z.to_nat i) j)
                                    (fmul sc (dot (size a 1) (get2 a (Z.to_nat i)) (get2 b j))))
                        (seq 0 (size w 1)))
                 (data x))).

(** The base-only lookup: the rows of [w] selected by [x]. *)
Definition base_output_spec (w : tensor F) (x : tensor Z) : tensor F :=
  mkTensor (shape x ++ [size w 1])
    (concat (map (fun i => map (get2 w (Z.to_nat i)) (seq 0 (size w 1))) (data x))).

(** The base table after [merge_lora], as the specification writes it:
    [base += (A @ B^T) * scaling]. *)
Definition merged_weight_spec (w a b : tensor F) (sc : F) : tensor F :=
  mkTensor (shape w)
    (tabulate2 (size w 0) (size w 1)
       (fun i j => fadd (get2 w i j) (fmul (dot (size a 1) (get2 a i) (get2 b j)) sc))).

(** The merged lifecycle state: rank zero and no LoRA attribute left. *)
Definition merged (s : Embedding.t) : Prop :=
  Embedding.lora_r s = 0%Z
  /\ Embedding.lora_a s = None /\ Embedding.lora_b s = None
  /\ Embedding.lora_alpha s = None /\ Embedding._lora_scaling s = None.

(** The calls a client can make on a layer. *)
Inductive call : Type :=
| CallForward (x : tensor Z)
| CallMerge.

Definition run_call (s : Embedding.t) (c : call) : Embedding.t :=
  match c with
  | CallForward x => fst (Embedding.forward s x)
  | CallMerge => fst (Embedding.merge_lora s)
  end.

Definition run_calls (s : Embedding.t) (cs : list call) : Embedding.t :=
  fold_left run_call cs s.

End Wf.

(** ** Concrete layers and inputs *)

Module Examples.

(** A draw of [init.normal_] for the base table: rows [1 2], [3 4], [5 6]. *)
Definition draw_w (i j : nat) : float := float_of_Z (Z.of_nat (i * 2 + j + 1)).

Definition draw_b (i j : nat) : float := if Nat.eqb i j then 1%float else 0.5%float.

Definition base3x2 (max_norm : option float) (requires_grad : bool) : tEmbedding.t :=
  tEmbedding.mk 3 2 None max_norm 2%float false false
    (mkTensor [3; 2]%nat [1; 2; 3; 4; neg_infinity; neg_infinity]%float) requires_grad.

(** [Embedding(3, 2, neg_inf_idx=-1)]: rank zero. *)
Definition plain_layer : Embedding.t :=
  Embedding.mk (base3x2 None true) (Some (-1)%Z) 0 None None None None.

(** [Embedding(3, 2, max_norm=1., neg_inf_idx=-1)]: rank zero, with renormalisation. *)
Definition renorm_layer : Embedding.t :=
  Embedding.mk (base3x2 (Some 1%float) true) (Some (-1)%Z) 0 None None None None.

(** [Embedding(3, 2, lora_r=2, lora_alpha=1., neg_inf_idx=-1)] right after construction. *)
Definition fresh_layer : Embedding.t :=
  Embedding.mk (base3x2 None false) (Some (-1)%Z) 2
    (Some (mkTensor [3; 2]%nat [0; 0; 0; 0; 0; 0]%float))
    (Some (mkTensor [2; 2]%nat [1; 0.5; 0.5; 1]%float))
    (Some 1%float) (Some 0.5%float).

(** The same layer after training has moved factor A. *)
Definition trained_layer : Embedding.t :=
  Embedding.mk (base3x2 None false) (Some (-1)%Z) 2
    (Some (mkTensor [3; 2]%nat [1; 2; 0; 4; 0; 0]%float))
    (Some (mkTensor [2; 2]%nat [1; 0.5; 0.5; 1]%float))
    (Some 1%float) (Some 0.5%float).

(** [Embedding(3, 2, lora_r=2, lora_alpha=float('inf'))] right after construction. *)
Definition inf_alpha_layer : Embedding.t :=
  Embedding.mk
    (tEmbedding.mk 3 2 None None 2%float false false
       (mkTensor [3; 2]%nat [1; 2; 3; 4; 5; 6]%float) false)
    None 2
    (Some (mkTensor [3; 2]%nat [0; 0; 0; 0; 0; 0]%float))
    (Some (mkTensor [2; 2]%nat [1; 0.5; 0.5; 1]%float))
    (Some infinity) (Some infinity).

(** Index tensors: a vector, a 2 x 2 matrix and a 0-dimensional tensor. *)
Definition x_vec : tensor Z := mkTensor [2%nat] [0%Z; 1%Z].
Definition x_mat : tensor Z := mkTensor [2; 2]%nat [1%Z; 0%Z; 0%Z; 1%Z].
Definition x_scalar : tensor Z := mkTensor [] [1%Z].

(** The gradient of [forward(x_vec).sum()] with respect to the base table:
    one in the two rows looked up, zero in the sentinel row. *)
Definition grad_vec : tensor float := mkTensor [3; 2]%nat [1; 1; 1; 1; 0; 0]%float.

(** A batch of two one-token segments and a cache of the same shape. *)
Definition seg : tensor float := mkTensor [2; 1; 1]%nat [3; 4]%float.
Definition cache : tensor float := mkTensor [2; 1; 1]%nat [1; 2]%float.

(** An encoder layer whose sublayers are identities; its attention returns
    the query and, as weights, the key-value sequence it was given. *)
Definition probe_layer (norm_first : bool) : EncoderLayer.t :=
  EncoderLayer.mk
    (fun q kv _ need_weights => Ok (q, if need_weights then Some kv else None))
    (fun t => Ok t) (fun t => Ok t) (fun t => Ok t) (fun t => Ok t)
    (fun t => Ok t) (fun t => Ok t) (fun t => Ok t) (fun t => Ok t)
    norm_first.

End Examples.

(** ** [chytorch.utils.data.chained_collate] *)

Module ChainedCollate.
Section Defs.

(** [A]: the components of a sample; [B]: what a collate function returns. *)
Variables A B : Type.

(** [for y, s in zip(x, sub_batches): s.append(y)]: [zip] stops at the
    shorter of the sample and the list of sub-batches. *)
Fixpoint append_each (x : list A) (sub_batches : list (list A)) : list (list A) :=
  match x, sub_batches with
  | y :: x', s :: rest => (s ++ [y]) :: append_each x' rest
  | _, _ => sub_batches
  end.

(** The sub-batches after the loop over [batch], starting from one empty
    list per collate function. *)
Definition fill_sub_batches (n : nat) (batch : list (list A)) : list (list A) :=
  fold_left (fun subs x => append_each x subs) batch (repeat [] n).

(** [[f(x) for x, f in zip(sub_batches, collate_fns)]], left to right. *)
Fixpoint apply_each (sub_batches : list (list A)) (fns : list (list A -> result B))
  : result (list B) :=
  match sub_batches, fns with
  | s :: rest, f :: fns' => v <- f s ;; vs <- apply_each rest fns' ;; Ok (v :: vs)
  | _, _ => Ok []
  end.

(** The function [w] that [chained_collate] returns, applied to [batch]. *)
Definition chained_collate (collate_fns : list (list A -> result B))
    (batch : list (list A)) : result (list B) :=
  apply_each (fill_sub_batches (length collate_fns) batch) collate_fns.

(** Component [k] of the samples that have one, in batch order. *)
Definition column (k : nat) (batch : list (list A)) : list A :=
  flat_map (fun x => match nth_error x k with Some y => [y] | None => [] end) batch.

End Defs.

(** A batch of three samples, the second one short. *)
Definition ragged : list (list nat) := [[1; 10]; [2]; [3; 30; 300]]%nat.

(** A collate function that sums and one that refuses an empty sub-batch. *)
Definition sum_fn (l : list nat) : result nat := Ok (fold_right Nat.add 0%nat l).
Definition nonempty_len (l : list nat) : result nat :=
  match l with [] => Raise ValueError | _ => Ok (length l) end.

End ChainedCollate.


(** Whether [t[z]], for an optional index [z], addresses row [i] of a table
    of [n] rows. *)
Definition selects_row (n : nat) (z : option Z) (i : nat) : bool :=
  match z with
  | Some z' => match wrap_index n z' with
               | Ok k => Nat.eqb k i
               | Raise _ => false
               end
  | None => false
  end.

(** ** [EncoderLayer] with its sublayers as objects

    [MultiheadAttention] and [Linear] are defined in [.attention] and
    [.linear]; [merge_lora] only calls their [merge_lora], so their states
    and this method are parameters. *)

Module EncoderLayerObject.
Section Defs.
Context {SC : Scalar}.
Variables Attn Lin : Type.
Variable attn_merge_lora : Attn -> Attn * result unit.
Variable lin_merge_lora : Lin -> Lin * result unit.

Record t : Type := mk {
  self_attn : Attn;
  linear1 : Lin;
  linear2 : Lin;
  norm1 : tensor F -> result (tensor F);
  norm2 : tensor F -> result (tensor F);
  dropout1 : tensor F -> result (tensor F);
  dropout2 : tensor F -> result (tensor F);
  dropout3 : tensor F -> result (tensor F);
  activation : tensor F -> result (tensor F);
  norm_first : bool
}.

Definition set_self_attn (self : t) (a : Attn) : t :=
  mk a (linear1 self) (linear2 self) (norm1 self) (norm2 self) (dropout1 self)
     (dropout2 self) (dropout3 self) (activation self) (norm_first self).

Definition set_linear1 (self : t) (l : Lin) : t :=
  mk (self_attn self) l (linear2 self) (norm1 self) (norm2 self) (dropout1 self)
     (dropout2 self) (dropout3 self) (activation self) (norm_first self).

Definition set_linear2 (self : t) (l : Lin) : t :=
  mk (self_attn self) (linear1 self) l (norm1 self) (norm2 self) (dropout1 self)
     (dropout2 self) (dropout3 self) (activation self) (norm_first self).

Definition merge_lora (self : t) : t * result unit :=
  let '(a', r0) := attn_merge_lora (self_attn self) in
  let self1 := set_self_attn self a' in
  match r0 with
  | Raise e => (self1, Raise e)
  | Ok _ =>
      let '(l1', r1) := lin_merge_lora (linear1 self1) in
      let self2 := set_linear1 self1 l1' in
      match r1 with
      | Raise e => (self2, Raise e)
      | Ok _ =>
          let '(l2', r2) := lin_merge_lora (linear2 self2) in
          (set_linear2 self2 l2', r2)
      end
  end.

End Defs.

(** Stand-ins for the sublayers: a sublayer is its remaining LoRA rank;
    [merge_lora] sets it to zero, and raises on a negative one, leaving it
    as it is. *)
Definition toy_merge_lora (r : Z) : Z * result unit :=
  if (r <? 0)%Z then (r, Raise AttributeError) else (0%Z, Ok tt).

Definition toy_layer {SC : Scalar} (r0 r1 r2 : Z) : @t SC Z Z :=
  mk r0 r1 r2 (fun x => Ok x) (fun x => Ok x) (fun x => Ok x) (fun x => Ok x)
     (fun x => Ok x) (fun x => Ok x) false.

End EncoderLayerObject.

(** ** [Embedding.extra_repr]

    The parent's [extra_repr] and the formatting of an int and of a float in
    an f-string are parameters. *)

From Stdlib Require String.

Module EmbeddingRepr.
Import String.

Section Defs.
Context {SC : Scalar}.
Variable parent_extra_repr : tEmbedding.t -> string.
Variable format_int : Z -> string.
Variable format_float : F -> string.

Definition extra_repr (self : Embedding.t) : result string :=
  let r := parent_extra_repr (Embedding.base self) in
  if (Embedding.lora_r self =? 0)%Z then Ok r
  else
    al <- getattr (Embedding.lora_alpha self) ;;
    Ok (r ++ ", lora_r=" ++ format_int (Embedding.lora_r self)
          ++ ", lora_alpha=" ++ format_float al)%string.

End Defs.

(** Stand-ins for the formatting of [Embedding(3, 2, lora_r=2)]. *)
Definition sample_parent_repr (_ : @tEmbedding.t float_scalar) : string := "3, 2"%string.
Definition sample_format_int (_ : Z) : string := "2"%string.
Definition sample_format_float (_ : float) : string := "1.0"%string.

End EmbeddingRepr.

(** ** Lists laid out row by row *)

Lemma length_concat_rows (A B : Type) (g : A -> nat -> B) (d : nat) (xs : list A) :
  length (concat (map (fun i => map (g i) (seq 0 d)) xs)) = (length xs * d)%nat.
Proof.
  induction xs as [|a xs IH]; simpl; [reflexivity|].
  rewrite length_app, length_map, length_seq, IH. reflexivity.
Qed.

Lemma nth_concat_rows (A B : Type) (g : A -> nat -> B) (d : nat) (xs : list A)
      (n j : nat) (da : A) (db : B) :
  (n < length xs)%nat -> (j < d)%nat ->
  nth (n * d + j) (concat (map (fun i => map (g i) (seq 0 d)) xs)) db = g (nth n xs da) j.
Proof.
  revert n. induction xs as [|a xs IH]; intros n Hn Hj; simpl in Hn; [lia|].
  simpl. destruct n as [|n].
  - simpl. rewrite app_nth1 by (rewrite length_map, length_seq; exact Hj).
    rewrite (nth_indep _ db (g a 0%nat)) by (rewrite length_map, length_seq; exact Hj).
    rewrite map_nth, seq_nth by exact Hj. reflexivity.
  - rewrite app_nth2 by (rewrite length_map, length_seq; simpl; lia).
    rewrite length_map, length_seq.
    replace (S n * d + j - d)%nat with (n * d + j)%nat by (simpl; lia).
    apply IH; [lia | exact Hj].
Qed.

Lemma concat_rows_ext (A B : Type) (g h : A -> nat -> B) (d : nat) (xs : list A) :
  (forall i j, In i xs -> (j < d)%nat -> g i j = h i j) ->
  concat (map (fun i => map (g i) (seq 0 d)) xs)
  = concat (map (fun i => map (h i) (seq 0 d)) xs).
Proof.
  intros H. induction xs as [|a xs IH]; simpl; [reflexivity|].
  f_equal.
  - apply map_ext_in. intros j Hj. apply in_seq in Hj. apply H; [left; reflexivity | lia].
  - apply IH. intros i j Hi Hj. apply H; [right; exact Hi | exact Hj].
Qed.

Lemma length_tabulate2 (A : Type) (n m : nat) (f : nat -> nat -> A) :
  length (tabulate2 n m f) = (n * m)%nat.
Proof.
  unfold tabulate2. rewrite length_concat_rows, length_seq. reflexivity.
Qed.

Lemma nth_tabulate2 (A : Type) (n m : nat) (f : nat -> nat -> A) (i j : nat) (d : A) :
  (i < n)%nat -> (j < m)%nat -> nth (i * m + j) (tabulate2 n m f) d = f i j.
Proof.
  intros Hi Hj. unfold tabulate2.
  rewrite (nth_concat_rows f (seq 0 n) 0%nat d) by (rewrite ?length_seq; assumption).
  rewrite seq_nth by exact Hi. reflexivity.
Qed.

Lemma tabulate2_ext (A : Type) (n m : nat) (f g : nat -> nat -> A) :
  (forall i j, (i < n)%nat -> (j < m)%nat -> f i j = g i j) ->
  tabulate2 n m f = tabulate2 n m g.
Proof.
  intros H. unfold tabulate2. apply concat_rows_ext.
  intros i j Hi Hj. apply in_seq in Hi. apply H; lia.
Qed.

(** A table indexed by position equals the rows listed along [xs]. *)
Lemma tabulate2_along (A B : Type) (xs : list A) (d : nat) (f : nat -> nat -> B)
      (g : A -> nat -> B) (da : A) :
  (forall n j, (n < length xs)%nat -> (j < d)%nat -> f n j = g (nth n xs da) j) ->
  tabulate2 (length xs) d f = concat (map (fun i => map (g i) (seq 0 d)) xs).
Proof.
  unfold tabulate2. revert f. induction xs as [|a xs IH]; intros f H; [reflexivity|].
  cbn [length seq map concat]. rewrite <- seq_shift, map_map. f_equal.
  - apply map_ext_in. intros j Hj. apply in_seq in Hj.
    apply (H 0%nat j); simpl; lia.
  - apply (IH (fun n => f (S n))). intros n j Hn Hj.
    apply (H (S n) j); simpl; lia.
Qed.

(** ** Shapes *)

Lemma shape_eqb_eq (s1 s2 : list nat) : shape_eqb s1 s2 = true <-> s1 = s2.
Proof.
  revert s2. induction s1 as [|a s1 IH]; intros [|b s2]; simpl; split; intros H;
    try reflexivity; try discriminate.
  - apply andb_true_iff in H as [Hab Hs]. apply Nat.eqb_eq in Hab. apply IH in Hs.
    subst. reflexivity.
  - injection H as -> ->. rewrite Nat.eqb_refl. simpl. apply IH. reflexivity.
Qed.

Lemma shape_eqb_refl (s : list nat) : shape_eqb s s = true.
Proof. apply shape_eqb_eq. reflexivity. Qed.

Lemma numel_app (s1 s2 : list nat) : numel (s1 ++ s2) = (numel s1 * numel s2)%nat.
Proof.
  induction s1 as [|a s1 IH]; simpl; [lia|]. rewrite IH. lia.
Qed.

Lemma is_matrix_shape (A : Type) (t : tensor A) :
  is_matrix t = true ->
  shape t = [size t 0; size t 1] /\ length (data t) = (size t 0 * size t 1)%nat.
Proof.
  unfold is_matrix, wf_tensor, ndim, size. intros H.
  apply andb_true_iff in H as [Hn Hl].
  apply Nat.eqb_eq in Hn. apply Nat.eqb_eq in Hl.
  destruct (shape t) as [|n [|d [|? ?]]]; try discriminate.
  simpl in *. split; [reflexivity | lia].
Qed.

Lemma is_matrix_intro (A : Type) (n d : nat) (l : list A) :
  length l = (n * d)%nat -> is_matrix (mkTensor [n; d] l) = true.
Proof.
  intros H. unfold is_matrix, wf_tensor, ndim. simpl. rewrite H.
  apply Nat.eqb_eq. lia.
Qed.

Lemma wrap_index_lt (n : nat) (i : Z) (k : nat) : wrap_index n i = Ok k -> (k < n)%nat.
Proof.
  unfold wrap_index.
  destruct ((0 <=? i)%Z && (i <? Z.of_nat n)%Z) eqn:E1.
  - intros H. injection H as <-. apply andb_true_iff in E1 as [H0 H1].
    apply Z.leb_le in H0. apply Z.ltb_lt in H1. lia.
  - destruct ((- Z.of_nat n <=? i)%Z && (i <? 0)%Z) eqn:E2; [|discriminate].
    intros H. injection H as <-. apply andb_true_iff in E2 as [H0 H1].
    apply Z.leb_le in H0. apply Z.ltb_lt in H1. lia.
Qed.

Section MatrixFacts.
Context {SC : Scalar}.

Lemma get2_tabulate (n d : nat) (f : nat -> nat -> F) (i j : nat) :
  (i < n)%nat -> (j < d)%nat -> get2 (mkTensor [n; d] (tabulate2 n d f)) i j = f i j.
Proof.
  intros Hi Hj. unfold get2, size. simpl. apply nth_tabulate2; assumption.
Qed.

Lemma map_row_is_matrix (g : F -> F) (t : tensor F) (k : nat) :
  is_matrix t = true -> is_matrix (map_row g t k) = true.
Proof.
  intros H. apply is_matrix_shape in H as [Hs _].
  unfold map_row. rewrite Hs at 1. apply is_matrix_intro. apply length_tabulate2.
Qed.

Lemma map_row_shape (g : F -> F) (t : tensor F) (k : nat) :
  shape (map_row g t k) = shape t.
Proof. reflexivity. Qed.

Lemma get2_map_row (g : F -> F) (t : tensor F) (k i j : nat) :
  is_matrix t = true -> (i < size t 0)%nat -> (j < size t 1)%nat ->
  get2 (map_row g t k) i j = if Nat.eqb i k then g (get2 t i j) else get2 t i j.
Proof.
  intros H Hi Hj. unfold get2 at 1, map_row. simpl.
  replace (size {| shape := shape t; data := _ |} 1) with (size t 1) by reflexivity.
  rewrite nth_tabulate2 by assumption. reflexivity.
Qed.

Lemma dot_ext (n : nat) (a a' b b' : nat -> F) :
  (forall k, (k < n)%nat -> a k = a' k) ->
  (forall k, (k < n)%nat -> b k = b' k) ->
  dot n a b = dot n a' b'.
Proof.
  intros Ha Hb. unfold dot. generalize zero.
  assert (H : forall k, In k (seq 0 n) -> a k = a' k /\ b k = b' k).
  { intros k Hk. apply in_seq in Hk. split; [apply Ha | apply Hb]; lia. }
  induction (seq 0 n) as [|k l IH]; intros acc; simpl; [reflexivity|].
  destruct (H k (or_introl eq_refl)) as [-> ->].
  apply IH. intros k' Hk'. apply H. right. exact Hk'.
Qed.

Lemma get2_transpose (t : tensor F) (i j : nat) :
  (i < size t 1)%nat -> (j < size t 0)%nat -> get2 (transpose t) i j = get2 t j i.
Proof.
  intros Hi Hj. unfold transpose.
  exact (get2_tabulate (fun a b => get2 t b a) Hi Hj).
Qed.

End MatrixFacts.

(** ** What the constructors build *)

Section Construction.
Context {SC : Scalar}.

Lemma empty_pair (a b : Z) (shp : list nat) :
  empty [a; b] = Ok shp -> (0 <= a)%Z /\ (0 <= b)%Z /\ shp = [Z.to_nat a; Z.to_nat b].
Proof.
  unfold empty. cbn [forallb].
  destruct (negb (fits_int64 a && (fits_int64 b && true))); [discriminate|].
  destruct (0 <=? a)%Z eqn:Ea; cbn [andb]; [|discriminate].
  destruct (0 <=? b)%Z eqn:Eb; cbn [andb map]; [|discriminate].
  intros H. injection H as <-.
  apply Z.leb_le in Ea. apply Z.leb_le in Eb. repeat split; assumption.
Qed.

Lemma index_int_inv (n : nat) (i : Z) (k : nat) :
  index_int n i = Ok k -> fits_int64 i = true /\ wrap_index n i = Ok k.
Proof.
  unfold index_int. destruct (fits_int64 i); [|discriminate].
  intros H. split; [reflexivity | exact H].
Qed.

Lemma tEmbedding_init_inv num dim pad mn p sg sp nw (b : tEmbedding.t) :
  tEmbedding.__init__ num dim pad mn p sg sp nw = Ok b ->
  is_matrix (tEmbedding.weight b) = true
  /\ size (tEmbedding.weight b) 0 = Z.to_nat num
  /\ size (tEmbedding.weight b) 1 = Z.to_nat dim
  /\ (0 <= num)%Z /\ (0 <= dim)%Z
  /\ tEmbedding.weight_requires_grad b = true
  /\ tEmbedding.max_norm b = mn
  /\ check_padding_idx (Z.to_nat num) (tEmbedding.padding_idx b) = Ok tt
  /\ tEmbedding.norm_type b = p.
Proof.
  unfold tEmbedding.__init__.
  destruct (match pad with
            | Some p0 =>
                if (0 <? p0)%Z
                then if (p0 <? num)%Z then Ok (Some p0) else Raise AssertionError
                else if (p0 <? 0)%Z
                     then if (- num <=? p0)%Z then Ok (Some (num + p0)%Z)
                          else Raise AssertionError
                     else Ok (Some p0)
            | None => Ok None
            end) as [pad'|e] eqn:Epad; cbn [bind]; [|discriminate].
  destruct (empty [num; dim]) as [shp|e] eqn:Eshp; cbn [bind]; [|discriminate].
  apply empty_pair in Eshp as (Hn & Hd & ->). cbn [nth].
  set (w := mkTensor [Z.to_nat num; Z.to_nat dim]
                     (tabulate2 (Z.to_nat num) (Z.to_nat dim) nw)).
  assert (Hw : is_matrix w = true) by (apply is_matrix_intro, length_tabulate2).
  assert (Hpad : check_padding_idx (Z.to_nat num) pad' = Ok tt).
  { unfold check_padding_idx. destruct pad as [p0|]; [|injection Epad as <-; reflexivity].
    destruct (0 <? p0)%Z eqn:E0.
    - destruct (p0 <? num)%Z eqn:E1; [|discriminate]. injection Epad as <-.
      rewrite E0. apply Z.ltb_lt in E1.
      replace (p0 <? Z.of_nat (Z.to_nat num))%Z with true; [reflexivity|].
      symmetry. apply Z.ltb_lt. lia.
    - destruct (p0 <? 0)%Z eqn:E1.
      + destruct (- num <=? p0)%Z eqn:E2; [|discriminate]. injection Epad as <-.
        apply Z.ltb_lt in E1. apply Z.leb_le in E2.
        destruct (0 <? num + p0)%Z eqn:E3.
        * replace (num + p0 <? Z.of_nat (Z.to_nat num))%Z with true; [reflexivity|].
          symmetry. apply Z.ltb_lt. lia.
        * replace (num + p0 <? 0)%Z with false; [reflexivity|].
          symmetry. apply Z.ltb_ge. lia.
      + injection Epad as <-. rewrite E0, E1. reflexivity. }
  destruct pad' as [p0|]; cbn [bind].
  - destruct (wrap_index (Z.to_nat num) p0) as [k|e]; cbn [bind]; [|discriminate].
    intros H. injection H as <-. cbn.
    repeat split; try assumption; try reflexivity.
    apply (map_row_is_matrix (fun _ => zero) w k Hw).
  - intros H. injection H as <-. cbn. repeat split; try assumption; reflexivity.
Qed.

(** The layer right after [Embedding.__init__], written out. *)
Lemma Embedding_init_inv num dim pad mn p sg sp r alpha ninf nw nb (s : Embedding.t) :
  Embedding.__init__ num dim pad mn p sg sp r alpha ninf nw nb = Ok s ->
  exists b w1,
    tEmbedding.__init__ num dim pad mn p sg sp nw = Ok b
    /\ match ninf with
       | None => w1 = tEmbedding.weight b
       | Some i => exists k, wrap_index (size (tEmbedding.weight b) 0) i = Ok k
                             /\ w1 = fill_row (tEmbedding.weight b) k neg_inf
       end
    /\ ((r = 0%Z /\ s = Embedding.mk (tEmbedding.set_weight b w1) ninf 0 None None None None)
        \/ ((0 < r)%Z
            /\ s = Embedding.mk
                     (tEmbedding.set_requires_grad (tEmbedding.set_weight b w1) false)
                     ninf r
                     (Some (mkTensor [Z.to_nat num; Z.to_nat r]
                              (tabulate2 (Z.to_nat num) (Z.to_nat r) (fun _ _ => zero))))
                     (Some (mkTensor [Z.to_nat dim; Z.to_nat r]
                              (tabulate2 (Z.to_nat dim) (Z.to_nat r) nb)))
                     (Some alpha) (Some (fdiv alpha (of_Z r))))).
Proof.
  unfold Embedding.__init__.
  destruct (tEmbedding.__init__ num dim pad mn p sg sp nw) as [b|e]; cbn [bind]; [|discriminate].
  assert (Hsame : tEmbedding.set_weight b (tEmbedding.weight b) = b) by (destruct b; reflexivity).
  intros H. exists b.
  destruct ninf as [i|].
  - destruct (index_int (size (tEmbedding.weight b) 0) i) as [k|e] eqn:Ek; cbn [bind] in H;
      [|discriminate].
    apply index_int_inv in Ek as [_ Ek].
    exists (fill_row (tEmbedding.weight b) k neg_inf).
    split; [reflexivity|]. split; [exists k; split; [exact Ek | reflexivity]|].
    destruct (r =? 0)%Z eqn:Er.
    + left. apply Z.eqb_eq in Er. injection H as <-. subst r. split; reflexivity.
    + right. destruct (empty [num; r]) as [sa|e] eqn:Ea; cbn [bind] in H; [|discriminate].
      destruct (empty [dim; r]) as [sb|e] eqn:Eb; cbn [bind] in H; [|discriminate].
      apply empty_pair in Ea as (_ & Hr & ->). apply empty_pair in Eb as (_ & _ & ->).
      apply Z.eqb_neq in Er. injection H as <-. split; [lia | reflexivity].
  - cbn [bind] in H. exists (tEmbedding.weight b).
    split; [reflexivity|]. split; [reflexivity|]. rewrite Hsame.
    destruct (r =? 0)%Z eqn:Er.
    + left. apply Z.eqb_eq in Er. injection H as <-. subst r. split; reflexivity.
    + right. destruct (empty [num; r]) as [sa|e] eqn:Ea; cbn [bind] in H; [|discriminate].
      destruct (empty [dim; r]) as [sb|e] eqn:Eb; cbn [bind] in H; [|discriminate].
      apply empty_pair in Ea as (_ & Hr & ->). apply empty_pair in Eb as (_ & _ & ->).
      apply Z.eqb_neq in Er. injection H as <-. split; [lia | reflexivity].
Qed.

Lemma Embedding_init_sentinel_fits num dim pad mn p sg sp r alpha (i : Z) nw nb
      (s : Embedding.t) :
  Embedding.__init__ num dim pad mn p sg sp r alpha (Some i) nw nb = Ok s ->
  fits_int64 i = true.
Proof.
  unfold Embedding.__init__.
  destruct (tEmbedding.__init__ num dim pad mn p sg sp nw) as [b|e]; cbn [bind]; [|discriminate].
  destruct (index_int (size (tEmbedding.weight b) 0) i) as [k|e] eqn:Ek; cbn [bind];
    [|discriminate].
  intros _. apply (index_int_inv _ _ Ek).
Qed.

End Construction.

(** ** Elementwise addition of tables *)

Lemma nth_tabulate2_flat (A : Type) (n d : nat) (f : nat -> nat -> A) (k : nat) (dflt : A) :
  (k < n * d)%nat -> nth k (tabulate2 n d f) dflt = f (k / d)%nat (k mod d)%nat.
Proof.
  intros Hk. assert (Hd : d <> 0%nat) by (intros ->; lia).
  rewrite (Nat.div_mod_eq k d) at 1. rewrite (Nat.mul_comm d).
  apply nth_tabulate2.
  - apply Nat.Div0.div_lt_upper_bound. lia.
  - apply Nat.mod_upper_bound. exact Hd.
Qed.

Section ZipAdd.
Context {SC : Scalar}.

Lemma length_zip_add (xs ys : list F) :
  length (zip_add xs ys) = Nat.min (length xs) (length ys).
Proof.
  revert ys. induction xs as [|x xs IH]; intros [|y ys]; simpl; try reflexivity.
  rewrite IH. reflexivity.
Qed.

Lemma nth_zip_add (xs ys : list F) (k : nat) (d : F) :
  (k < length xs)%nat -> (k < length ys)%nat ->
  nth k (zip_add xs ys) d = fadd (nth k xs d) (nth k ys d).
Proof.
  revert ys k. induction xs as [|x xs IH]; intros [|y ys] k Hx Hy; simpl in *; try lia.
  destruct k as [|k]; [reflexivity|]. apply IH; lia.
Qed.

Lemma zip_add_tabulate (l : list F) (n d : nat) (g : F -> F) (f : nat -> nat -> F) :
  length l = (n * d)%nat ->
  zip_add l (map g (tabulate2 n d f))
  = tabulate2 n d (fun i j => fadd (nth (i * d + j) l zero) (g (f i j))).
Proof.
  intros Hl. apply (nth_ext _ _ zero zero).
  - rewrite length_zip_add, length_map, !length_tabulate2, Hl. apply Nat.min_id.
  - intros k Hk.
    rewrite length_zip_add, length_map, length_tabulate2, Hl, Nat.min_id in Hk.
    rewrite nth_zip_add by (rewrite ?length_map, ?length_tabulate2; lia).
    rewrite nth_tabulate2_flat by exact Hk.
    rewrite (nth_indep (map g (tabulate2 n d f)) zero (g zero))
      by (rewrite length_map, length_tabulate2; exact Hk).
    rewrite map_nth, nth_tabulate2_flat by exact Hk.
    assert (Hd : d <> 0%nat) by (intros ->; lia).
    replace (k / d * d + k mod d)%nat with k
      by (rewrite (Nat.div_mod_eq k d) at 1; lia).
    reflexivity.
Qed.

End ZipAdd.

(** ** [merge_lora] on an active layer *)

Section Merge.
Context {SC : Scalar}.

Lemma wf_active (s : Embedding.t) :
  wf s = true -> Embedding.lora_r s <> 0%Z ->
  exists a b al sc,
    Embedding.lora_a s = Some a /\ Embedding.lora_b s = Some b
    /\ Embedding.lora_alpha s = Some al /\ Embedding._lora_scaling s = Some sc
    /\ is_matrix a = true /\ is_matrix b = true
    /\ size a 0 = size (tEmbedding.weight (Embedding.base s)) 0
    /\ size b 0 = size (tEmbedding.weight (Embedding.base s)) 1
    /\ size a 1 = size b 1.
Proof.
  unfold wf. intros H Hr. apply Z.eqb_neq in Hr. rewrite Hr in H.
  apply andb_true_iff in H as [_ H].
  destruct (Embedding.lora_a s) as [a|]; [|discriminate].
  destruct (Embedding.lora_b s) as [b|]; [|discriminate].
  destruct (Embedding.lora_alpha s) as [al|]; [|discriminate].
  destruct (Embedding._lora_scaling s) as [sc|]; [|discriminate].
  apply andb_true_iff in H as [H E2]. apply andb_true_iff in H as [H E1].
  apply andb_true_iff in H as [H E0]. apply andb_true_iff in H as [Ma Mb].
  apply Nat.eqb_eq in E0, E1, E2.
  exists a, b, al, sc. repeat split; try reflexivity; assumption.
Qed.

Lemma wf_base (s : Embedding.t) :
  wf s = true ->
  is_matrix (tEmbedding.weight (Embedding.base s)) = true
  /\ check_padding_idx (size (tEmbedding.weight (Embedding.base s)) 0)
       (tEmbedding.padding_idx (Embedding.base s)) = Ok tt.
Proof.
  unfold wf. intros H. apply andb_true_iff in H as [H _].
  apply andb_true_iff in H as [Hm Hp]. split; [exact Hm|].
  destruct (check_padding_idx _ _) as [[]|e]; [reflexivity | discriminate].
Qed.

Lemma merge_lora_active (s : Embedding.t) (a b : tensor F) (al sc : F) :
  wf s = true -> Embedding.lora_r s <> 0%Z ->
  Embedding.lora_a s = Some a -> Embedding.lora_b s = Some b ->
  Embedding.lora_alpha s = Some al -> Embedding._lora_scaling s = Some sc ->
  Embedding.merge_lora s
  = (Embedding.mk
       (tEmbedding.set_requires_grad
          (tEmbedding.set_weight (Embedding.base s)
             (merged_weight_spec (tEmbedding.weight (Embedding.base s)) a b sc)) true)
       (Embedding.neg_inf_idx s) 0 None None None None,
     Ok tt).
Proof.
  intros Hwf Hr Ha Hb Hal Hsc.
  destruct (wf_active s Hwf Hr) as (a' & b' & al' & sc' & Ha' & Hb' & _ & _ & Hma & Hmb & H0 & H1 & H2).
  rewrite Ha in Ha'. injection Ha' as <-. rewrite Hb in Hb'. injection Hb' as <-.
  destruct (wf_base s Hwf) as [Hmw _].
  set (w := tEmbedding.weight (Embedding.base s)) in *.
  destruct (is_matrix_shape _ Hmw) as [Hsw Hlw].
  destruct (is_matrix_shape _ Hma) as [Hsa _].
  unfold Embedding.merge_lora. apply Z.eqb_neq in Hr. rewrite Hr, Ha, Hb, Hsc, Hal.
  cbn [getattr bind].
  assert (Hmm : matmul a (transpose b)
                = Ok (mkTensor [size w 0; size w 1]
                        (tabulate2 (size w 0) (size w 1)
                           (fun i j => dot (size a 1) (get2 a i) (get2 b j))))).
  { unfold matmul.
    replace (ndim a) with 2%nat by (unfold ndim; rewrite Hsa; reflexivity).
    replace (ndim (transpose b)) with 2%nat by reflexivity.
    replace (size (transpose b) 0) with (size b 1) by reflexivity.
    replace (size (transpose b) 1) with (size b 0) by reflexivity.
    cbn [Nat.eqb andb negb]. rewrite H2, Nat.eqb_refl. cbn [negb]. rewrite H0, H1.
    f_equal. f_equal. apply tabulate2_ext. intros i j Hi Hj.
    rewrite <- H2. apply dot_ext; [reflexivity|].
    intros k Hk. apply get2_transpose; lia. }
  rewrite Hmm. cbn [bind]. unfold iadd, mul_scalar. cbn [shape data].
  fold w. rewrite Hsw at 1. rewrite shape_eqb_refl. cbn [bind].
  unfold merged_weight_spec. fold w.
  rewrite zip_add_tabulate by exact Hlw. reflexivity.
Qed.

End Merge.

(** ** [Embedding.forward] as a function of the layer state *)

Section ForwardFrame.
Context {SC : Scalar}.

Lemma embedding_without_max_norm (x : tensor Z) (w : tensor F) (pad : option Z)
      (p : F) (sg sp : bool) :
  fst (embedding x w pad None p sg sp) = w.
Proof.
  unfold embedding. destruct (check_padding_idx (size w 0) pad); reflexivity.
Qed.

Lemma forward_rank_zero (s : Embedding.t) (x : tensor Z) :
  Embedding.lora_r s = 0%Z ->
  Embedding.forward s x
  = (Embedding.set_base s (fst (tEmbedding.forward (Embedding.base s) x)),
     snd (tEmbedding.forward (Embedding.base s) x)).
Proof.
  intros Hr. unfold Embedding.forward.
  destruct (tEmbedding.forward (Embedding.base s) x) as [b' [emb|e]]; simpl.
  - rewrite Hr. reflexivity.
  - reflexivity.
Qed.

End ForwardFrame.

(** ** Lookups that succeed *)

Lemma in_range_Forall (n : nat) (x : tensor Z) :
  in_range n x = true <-> Forall (index_ok n) (data x).
Proof.
  unfold in_range, index_ok. rewrite forallb_forall, Forall_forall.
  split; intros H i Hi; specialize (H i Hi).
  - apply andb_true_iff in H as [H0 H1]. apply Z.leb_le in H0. apply Z.ltb_lt in H1. lia.
  - apply andb_true_iff. split; [apply Z.leb_le | apply Z.ltb_lt]; lia.
Qed.

Lemma insert_sorted_Forall (P : Z -> Prop) (i : Z) (l : list Z) :
  P i -> Forall P l -> Forall P (insert_sorted i l).
Proof.
  intros Hi Hl. induction Hl as [|j l Hj Hl IH]; simpl.
  - constructor; [exact Hi | constructor].
  - destruct (i <=? j)%Z.
    + constructor; [exact Hi|]. constructor; assumption.
    + constructor; assumption.
Qed.

Lemma sort_indices_Forall (P : Z -> Prop) (l : list Z) :
  Forall P l -> Forall P (sort_indices l).
Proof.
  unfold sort_indices. induction 1 as [|i l Hi Hl IH]; simpl.
  - constructor.
  - apply insert_sorted_Forall; assumption.
Qed.

Lemma wrap_index_ok (n : nat) (i : Z) : index_ok n i -> wrap_index n i = Ok (Z.to_nat i).
Proof.
  unfold index_ok, wrap_index. intros H.
  replace ((0 <=? i)%Z && (i <? Z.of_nat n)%Z) with true; [reflexivity|].
  symmetry. apply andb_true_iff. split; [apply Z.leb_le | apply Z.ltb_lt]; lia.
Qed.

Section Lookup.
Context {SC : Scalar}.

Lemma renorm_rows_ok (max_norm p : F) (idx : list Z) (w : tensor F) (prev : option Z) :
  is_matrix w = true -> Forall (index_ok (size w 0)) idx ->
  snd (renorm_rows w prev idx max_norm p) = Ok tt
  /\ is_matrix (fst (renorm_rows w prev idx max_norm p)) = true
  /\ shape (fst (renorm_rows w prev idx max_norm p)) = shape w.
Proof.
  revert w prev. induction idx as [|i idx IH]; intros w prev Hm Hall; simpl.
  - repeat split; [exact Hm].
  - inversion Hall as [|? ? Hi Hrest]; subst.
    destruct (match prev with Some j => (i =? j)%Z | None => false end).
    + apply IH; assumption.
    + rewrite (wrap_index_ok Hi).
      destruct (fgt (vnorm p (row w (Z.to_nat i))) max_norm).
      * set (w' := map_row _ w (Z.to_nat i)).
        assert (Hm' : is_matrix w' = true) by (apply map_row_is_matrix, Hm).
        assert (Hs' : shape w' = shape w) by reflexivity.
        destruct (IH w' (Some i) Hm') as (H1 & H2 & H3).
        { unfold size. rewrite Hs'. exact Hrest. }
        rewrite H3. repeat split; assumption.
      * apply IH; assumption.
Qed.

Lemma embedding_ok (x : tensor Z) (w : tensor F) (pad : option Z) (mn : option F)
      (p : F) (sg sp : bool) :
  is_matrix w = true ->
  check_padding_idx (size w 0) pad = Ok tt ->
  in_range (size w 0) x = true ->
  snd (embedding x w pad mn p sg sp)
  = Ok (base_output_spec (fst (embedding x w pad mn p sg sp)) x)
  /\ is_matrix (fst (embedding x w pad mn p sg sp)) = true
  /\ shape (fst (embedding x w pad mn p sg sp)) = shape w.
Proof.
  intros Hm Hpad Hx. unfold embedding. rewrite Hpad.
  assert (Hlook : forall w', is_matrix w' = true -> shape w' = shape w ->
                             torch_embedding w' x = Ok (base_output_spec w' x)).
  { intros w' Hm' Hs'. unfold torch_embedding.
    destruct (is_matrix_shape _ Hm') as [Hsh _].
    replace (ndim w') with 2%nat by (unfold ndim; rewrite Hsh; reflexivity).
    cbn [Nat.eqb negb].
    replace (size w' 0) with (size w 0) by (unfold size; rewrite Hs'; reflexivity).
    unfold in_range in Hx. rewrite Hx. reflexivity. }
  destruct mn as [m|].
  - unfold embedding_renorm_.
    destruct (@renorm_rows_ok m p (sort_indices (data x)) w None Hm) as (H1 & H2 & H3).
    { apply sort_indices_Forall, in_range_Forall, Hx. }
    destruct (renorm_rows w None (sort_indices (data x)) m p) as [w' r].
    cbn [fst snd] in *. subst r. cbn [bind].
    split; [apply Hlook; assumption|]. split; assumption.
  - cbn [fst snd bind]. split; [apply Hlook; [exact Hm | reflexivity]|].
    split; [exact Hm | reflexivity].
Qed.

End Lookup.

(** ** The fused product of [forward] *)

Section Fused.
Context {SC : Scalar}.

Lemma flatten_lookup (t : tensor F) (x : tensor Z) :
  (1 <= ndim x)%nat ->
  flatten_end_m2 (base_output_spec t x)
  = Ok (mkTensor [numel (shape x); size t 1] (data (base_output_spec t x))).
Proof.
  intros Hx. unfold flatten_end_m2, base_output_spec, ndim in *. cbn [shape data].
  rewrite length_app. cbn [length].
  destruct (length (shape x)) as [|n] eqn:El; [lia|].
  replace (S n + 1)%nat with (S (S n)) by lia.
  rewrite removelast_last, last_last. reflexivity.
Qed.

Lemma get2_lookup (t : tensor F) (x : tensor Z) (n j : nat) :
  (n < length (data x))%nat -> (j < size t 1)%nat ->
  get2 (mkTensor [numel (shape x); size t 1] (data (base_output_spec t x))) n j
  = get2 t (Z.to_nat (nth n (data x) 0%Z)) j.
Proof.
  intros Hn Hj. unfold get2 at 1, base_output_spec. cbn [data].
  replace (size {| shape := [numel (shape x); size t 1]; data := _ |} 1)
    with (size t 1) by reflexivity.
  exact (nth_concat_rows (fun i => get2 t (Z.to_nat i)) (data x) 0%Z zero Hn Hj).
Qed.

Lemma fused_lookup (w a b : tensor F) (sc : F) (x : tensor Z) :
  is_matrix b = true -> size b 0 = size w 1 -> size a 1 = size b 1 ->
  wf_tensor x = true ->
  (r <- addmm (mkTensor [numel (shape x); size w 1] (data (base_output_spec w x)))
              (mkTensor [numel (shape x); size a 1] (data (base_output_spec a x)))
              (transpose b) sc ;;
   view r (shape (base_output_spec w x)))
  = Ok (lora_output_spec w a b sc x).
Proof.
  intros Hmb Hb0 Hb1 Hx. unfold wf_tensor in Hx. apply Nat.eqb_eq in Hx.
  unfold addmm.
  replace (ndim (mkTensor [numel (shape x); size a 1] (data (base_output_spec a x))))
    with 2%nat by reflexivity.
  replace (ndim (transpose b)) with 2%nat by reflexivity.
  replace (size (transpose b) 0) with (size b 1) by reflexivity.
  replace (size (transpose b) 1) with (size b 0) by reflexivity.
  replace (size (mkTensor [numel (shape x); size a 1] (data (base_output_spec a x))) 1)
    with (size a 1) by reflexivity.
  replace (size (mkTensor [numel (shape x); size a 1] (data (base_output_spec a x))) 0)
    with (numel (shape x)) by reflexivity.
  cbn [Nat.eqb andb negb shape]. rewrite Hb1, Nat.eqb_refl, Hb0, shape_eqb_refl.
  cbn [negb bind]. unfold view. cbn [shape data].
  replace (numel (shape (base_output_spec w x)) =? numel [numel (shape x); size w 1])%nat
    with true
    by (symmetry; apply Nat.eqb_eq; unfold base_output_spec; cbn [shape];
        rewrite numel_app; reflexivity).
  unfold lora_output_spec. cbn [shape base_output_spec]. do 2 f_equal.
  rewrite <- Hx.
  apply tabulate2_along with (da := 0%Z).
  intros n j Hn Hj. rewrite <- Hb1. f_equal.
  - rewrite Hx. apply get2_lookup; assumption.
  - f_equal. apply dot_ext.
    + intros k Hk. rewrite Hx. apply get2_lookup; assumption.
    + intros k Hk. apply get2_transpose; lia.
Qed.

End Fused.

(** ** [forward] on an active layer *)

Section ForwardActive.
Context {SC : Scalar}.

(** The tables after the lookups of [forward]: they are the stored ones
    unless [max_norm] makes the lookup renormalise rows. *)
Lemma forward_active (s : Embedding.t) (a b : tensor F) (sc : F) (x : tensor Z) :
  wf s = true -> Embedding.lora_r s <> 0%Z ->
  Embedding.lora_a s = Some a -> Embedding.lora_b s = Some b ->
  Embedding._lora_scaling s = Some sc ->
  wf_tensor x = true -> (1 <= ndim x)%nat ->
  in_range (size (tEmbedding.weight (Embedding.base s)) 0) x = true ->
  let base := Embedding.base s in
  let w' := fst (embedding x (tEmbedding.weight base) (tEmbedding.padding_idx base)
                   (tEmbedding.max_norm base) (tEmbedding.norm_type base)
                   (tEmbedding.scale_grad_by_freq base) (tEmbedding.sparse base)) in
  let a' := fst (embedding x a (tEmbedding.padding_idx base)
                   (tEmbedding.max_norm base) (tEmbedding.norm_type base)
                   (tEmbedding.scale_grad_by_freq base) (tEmbedding.sparse base)) in
  Embedding.forward s x
  = (Embedding.set_lora_a (Embedding.set_base s (tEmbedding.set_weight base w')) (Some a'),
     Ok (lora_output_spec w' a' b sc x)).
Proof.
  intros Hwf Hr Ha Hb Hsc Hx Hnd Hin base w' a'.
  destruct (wf_active s Hwf Hr) as (a0 & b0 & al & sc0 & Ha0 & Hb0 & _ & _ & Hma & Hmb & H0 & H1 & H2).
  rewrite Ha in Ha0. injection Ha0 as <-. rewrite Hb in Hb0. injection Hb0 as <-.
  destruct (wf_base s Hwf) as [Hmw Hpad]. fold base in Hmw, Hpad, H0, H1, Hin.
  destruct (embedding_ok x (tEmbedding.weight base) (tEmbedding.padding_idx base)
              (tEmbedding.max_norm base) (tEmbedding.norm_type base)
              (tEmbedding.scale_grad_by_freq base) (tEmbedding.sparse base) Hmw Hpad Hin)
    as (Ew & Mw & Sw).
  rewrite <- H0 in Hpad, Hin.
  destruct (embedding_ok x a (tEmbedding.padding_idx base)
              (tEmbedding.max_norm base) (tEmbedding.norm_type base)
              (tEmbedding.scale_grad_by_freq base) (tEmbedding.sparse base) Hma Hpad Hin)
    as (Ea & Ma & Sa).
  fold w' in Ew, Mw, Sw. fold a' in Ea, Ma, Sa.
  unfold Embedding.forward, tEmbedding.forward. fold base.
  destruct (embedding x (tEmbedding.weight base) (tEmbedding.padding_idx base)
              (tEmbedding.max_norm base) (tEmbedding.norm_type base)
              (tEmbedding.scale_grad_by_freq base) (tEmbedding.sparse base))
    as [w1 r1] eqn:E1.
  cbn [fst snd] in w', Ew. subst w'. rewrite Ew.
  cbn [Embedding.lora_r Embedding.set_base Embedding.lora_a Embedding.lora_b
       Embedding._lora_scaling Embedding.set_lora_a
       tEmbedding.set_weight tEmbedding.padding_idx tEmbedding.max_norm
       tEmbedding.norm_type tEmbedding.scale_grad_by_freq tEmbedding.sparse].
  apply Z.eqb_neq in Hr. rewrite Hr, Ha. cbn [getattr].
  destruct (embedding x a (tEmbedding.padding_idx base)
              (tEmbedding.max_norm base) (tEmbedding.norm_type base)
              (tEmbedding.scale_grad_by_freq base) (tEmbedding.sparse base))
    as [a1 r2] eqn:E2.
  cbn [fst snd] in a', Ea. subst a'. rewrite Ea. f_equal.
  cbn [bind]. rewrite !flatten_lookup by exact Hnd. cbn [bind].
  rewrite Hb, Hsc. cbn [getattr bind].
  apply fused_lookup.
  - exact Hmb.
  - unfold size. rewrite Sw. exact H1.
  - unfold size. rewrite Sa. exact H2.
  - exact Hx.
Qed.

End ForwardActive.

(** ** Freshly constructed layers *)

Section Fresh.
Context {SC : Scalar}.

Lemma init_wf num dim pad mn p sg sp r alpha ninf nw nb (s : Embedding.t) :
  Embedding.__init__ num dim pad mn p sg sp r alpha ninf nw nb = Ok s ->
  wf s = true
  /\ size (tEmbedding.weight (Embedding.base s)) 0 = Z.to_nat num
  /\ size (tEmbedding.weight (Embedding.base s)) 1 = Z.to_nat dim
  /\ tEmbedding.max_norm (Embedding.base s) = mn
  /\ tEmbedding.norm_type (Embedding.base s) = p.
Proof.
  intros H. apply Embedding_init_inv in H as (b & w1 & Hb & Hw1 & Hs).
  apply tEmbedding_init_inv in Hb as (Hm & Hn & Hd & Hnum & Hdim & _ & Hmn & Hpad & Hp).
  assert (Hw : is_matrix w1 = true /\ shape w1 = shape (tEmbedding.weight b)).
  { destruct ninf as [i|].
    - destruct Hw1 as (k & _ & ->). split; [apply map_row_is_matrix, Hm | reflexivity].
    - subst w1. split; [exact Hm | reflexivity]. }
  destruct Hw as [Hmw Hsw].
  assert (Hs0 : size w1 0 = Z.to_nat num) by (unfold size in *; rewrite Hsw; exact Hn).
  assert (Hs1 : size w1 1 = Z.to_nat dim) by (unfold size in *; rewrite Hsw; exact Hd).
  assert (Hbase : forall g,
             tEmbedding.padding_idx (tEmbedding.set_requires_grad (tEmbedding.set_weight b w1) g)
             = tEmbedding.padding_idx b) by reflexivity.
  destruct Hs as [[-> ->] | [Hr ->]]; unfold wf;
    cbn [Embedding.base Embedding.lora_r Embedding.lora_a Embedding.lora_b
         Embedding.lora_alpha Embedding._lora_scaling
         tEmbedding.set_requires_grad tEmbedding.set_weight tEmbedding.weight
         tEmbedding.padding_idx tEmbedding.max_norm tEmbedding.norm_type].
  - rewrite Hmw, Hs0, Hpad. repeat split; assumption.
  - rewrite Hmw, Hs0, Hs1, Hpad.
    replace (r =? 0)%Z with false by (symmetry; apply Z.eqb_neq; lia).
    rewrite !is_matrix_intro by apply length_tabulate2.
    cbn [size shape nth]. rewrite !Nat.eqb_refl. repeat split; assumption.
Qed.

Lemma dot_zero (n : nat) (a b : nat -> F) :
  (forall k, (k < n)%nat -> a k = zero) ->
  (forall k, (k < n)%nat -> fadd zero (fmul zero (b k)) = zero) ->
  dot n a b = zero.
Proof.
  intros Ha Hb. unfold dot.
  assert (H : forall k, In k (seq 0 n) -> fadd zero (fmul (a k) (b k)) = zero).
  { intros k Hk. apply in_seq in Hk. rewrite Ha by lia. apply Hb. lia. }
  induction (seq 0 n) as [|k l IH]; [reflexivity|].
  cbn [fold_left]. rewrite (H k (or_introl eq_refl)).
  apply IH. intros k' Hk'. apply H. right. exact Hk'.
Qed.

Lemma get2_In (t : tensor F) (i j : nat) :
  is_matrix t = true -> (i < size t 0)%nat -> (j < size t 1)%nat ->
  In (get2 t i j) (data t).
Proof.
  intros Hm Hi Hj. destruct (is_matrix_shape _ Hm) as [_ Hl].
  unfold get2. apply nth_In. rewrite Hl. nia.
Qed.

Lemma renorm_rows_noop (m p : F) (idx : list Z) (w : tensor F) (prev : option Z) :
  Forall (fun i => index_ok (size w 0) i
                   /\ fgt (vnorm p (row w (Z.to_nat i))) m = false) idx ->
  renorm_rows w prev idx m p = (w, Ok tt).
Proof.
  revert prev. induction idx as [|i idx IH]; intros prev Hall; [reflexivity|].
  inversion Hall as [|? ? [Hi Hg] Hrest]; subst. cbn [renorm_rows].
  destruct (match prev with Some j => (i =? j)%Z | None => false end).
  - apply IH, Hrest.
  - rewrite (wrap_index_ok Hi), Hg. apply IH, Hrest.
Qed.

End Fresh.

Section ZeroFactor.
Context {SC : Scalar}.

Lemma row_zero_table (n r k : nat) :
  (k < n)%nat ->
  row (mkTensor [n; r] (tabulate2 n r (fun _ _ => zero))) k = repeat zero r.
Proof.
  intros Hk. unfold row.
  replace (size (mkTensor [n; r] (tabulate2 n r (fun _ _ => zero))) 1) with r by reflexivity.
  transitivity (map (fun _ : nat => zero) (seq 0 r)).
  - apply map_ext_in. intros j Hj. apply in_seq in Hj.
    exact (get2_tabulate (fun _ _ => zero) Hk (proj2 Hj)).
  - rewrite map_const, length_seq. reflexivity.
Qed.

(** A lookup leaves the zero table as it is when the norm of a zero row does
    not exceed [max_norm]. *)
Lemma embedding_zero_table (x : tensor Z) (n r : nat) (pad : option Z) (mn : option F)
      (p : F) (sg sp : bool) :
  in_range n x = true ->
  (forall m, mn = Some m -> fgt (vnorm p (repeat zero r)) m = false) ->
  fst (embedding x (mkTensor [n; r] (tabulate2 n r (fun _ _ => zero))) pad mn p sg sp)
  = mkTensor [n; r] (tabulate2 n r (fun _ _ => zero)).
Proof.
  intros Hin Hnorm. destruct mn as [m|]; [|apply embedding_without_max_norm].
  unfold embedding. destruct (check_padding_idx _ pad); [|reflexivity].
  unfold embedding_renorm_. rewrite renorm_rows_noop; [reflexivity|].
  apply sort_indices_Forall. apply in_range_Forall in Hin.
  eapply Forall_impl; [|exact Hin].
  intros i Hi. split; [exact Hi|].
  rewrite row_zero_table by (unfold index_ok in Hi; lia).
  apply Hnorm. reflexivity.
Qed.

(** With a zero factor A the output of the specification is the base lookup,
    as soon as the scalars involved absorb the zero correction. *)
Lemma lora_output_zero_factor (w b : tensor F) (sc : F) (x : tensor Z) (n r : nat) :
  is_matrix w = true -> is_matrix b = true ->
  size w 0 = n -> size b 0 = size w 1 -> size b 1 = r ->
  in_range n x = true ->
  Forall (fun v => fadd zero (fmul zero v) = zero) (data b) ->
  Forall (fun e => fadd e (fmul sc zero) = e) (data w) ->
  lora_output_spec w (mkTensor [n; r] (tabulate2 n r (fun _ _ => zero))) b sc x
  = base_output_spec w x.
Proof.
  intros Hmw Hmb Hn Hb0 Hb1 Hin Hdot Hadd.
  unfold lora_output_spec, base_output_spec. f_equal.
  apply concat_rows_ext. intros i j Hi Hj.
  apply in_range_Forall in Hin. rewrite Forall_forall in Hin, Hdot, Hadd.
  specialize (Hin i Hi). unfold index_ok in Hin.
  replace (size (mkTensor [n; r] (tabulate2 n r (fun _ _ => zero))) 1) with r by reflexivity.
  rewrite dot_zero.
  - apply Hadd, get2_In; [exact Hmw | lia | exact Hj].
  - intros k Hk. apply (get2_tabulate (fun _ _ => zero)); lia.
  - intros k Hk. apply Hdot, get2_In; [exact Hmb | lia | lia].
Qed.

End ZeroFactor.

Lemma Forall_tabulate2 (A : Type) (P : A -> Prop) (n m : nat) (f : nat -> nat -> A) :
  (forall i j, (i < n)%nat -> (j < m)%nat -> P (f i j)) -> Forall P (tabulate2 n m f).
Proof.
  intros H. apply Forall_forall. intros v Hv.
  destruct n as [|n]; [contradiction|].
  apply (In_nth _ _ (f 0%nat 0%nat)) in Hv as (k & Hk & <-).
  rewrite length_tabulate2 in Hk. rewrite nth_tabulate2_flat by exact Hk.
  assert (Hm : m <> 0%nat) by (intros ->; lia).
  apply H.
  - apply Nat.Div0.div_lt_upper_bound. lia.
  - apply Nat.mod_upper_bound. exact Hm.
Qed.

(** ** The shape invariant along the life of a layer *)

Section Invariant.
Context {SC : Scalar}.

Lemma renorm_rows_shape (m p : F) (idx : list Z) (w : tensor F) (prev : option Z) :
  is_matrix w = true ->
  is_matrix (fst (renorm_rows w prev idx m p)) = true
  /\ shape (fst (renorm_rows w prev idx m p)) = shape w.
Proof.
  revert w prev. induction idx as [|i idx IH]; intros w prev Hm; cbn [renorm_rows].
  - split; [exact Hm | reflexivity].
  - destruct (match prev with Some j => (i =? j)%Z | None => false end); [apply IH, Hm|].
    destruct (wrap_index (size w 0) i) as [k|e]; [|split; [exact Hm | reflexivity]].
    destruct (fgt (vnorm p (row w k)) m); [|apply IH, Hm].
    set (w' := map_row _ w k).
    destruct (IH w' (Some i) (@map_row_is_matrix _ _ w k Hm)) as [H1 H2].
    split; [exact H1 | rewrite H2; reflexivity].
Qed.

Lemma embedding_shape (x : tensor Z) (w : tensor F) (pad : option Z) (mn : option F)
      (p : F) (sg sp : bool) :
  is_matrix w = true ->
  is_matrix (fst (embedding x w pad mn p sg sp)) = true
  /\ shape (fst (embedding x w pad mn p sg sp)) = shape w.
Proof.
  intros Hm. unfold embedding.
  destruct (check_padding_idx (size w 0) pad); [|split; [exact Hm | reflexivity]].
  destruct mn as [m|]; [|split; [exact Hm | reflexivity]].
  unfold embedding_renorm_.
  pose proof (@renorm_rows_shape m p (sort_indices (data x)) w None Hm) as H.
  destruct (renorm_rows w None (sort_indices (data x)) m p) as [w' r]. exact H.
Qed.

Lemma wf_set_weight (s : Embedding.t) (w' : tensor F) :
  wf s = true -> is_matrix w' = true ->
  shape w' = shape (tEmbedding.weight (Embedding.base s)) ->
  wf (Embedding.set_base s (tEmbedding.set_weight (Embedding.base s) w')) = true.
Proof.
  intros Hwf Hm Hs. unfold wf in *.
  cbn [Embedding.base Embedding.set_base Embedding.lora_r Embedding.lora_a Embedding.lora_b
       Embedding.lora_alpha Embedding._lora_scaling tEmbedding.set_weight tEmbedding.weight
       tEmbedding.padding_idx].
  unfold size in *. rewrite Hs, Hm. apply andb_true_iff in Hwf as [Hwf H3].
  apply andb_true_iff in Hwf as [_ H2]. rewrite H2, H3. reflexivity.
Qed.

Lemma wf_set_lora_a (s : Embedding.t) (a a' : tensor F) :
  wf s = true -> Embedding.lora_a s = Some a ->
  is_matrix a' = true -> shape a' = shape a ->
  wf (Embedding.set_lora_a s (Some a')) = true.
Proof.
  intros Hwf Ha Hm Hs. unfold wf in *.
  cbn [Embedding.base Embedding.set_lora_a Embedding.lora_r Embedding.lora_a Embedding.lora_b
       Embedding.lora_alpha Embedding._lora_scaling].
  rewrite Ha in Hwf.
  destruct (Embedding.lora_r s =? 0)%Z; [exact Hwf|].
  destruct (Embedding.lora_b s) as [b|]; [|rewrite andb_false_r in Hwf; discriminate].
  destruct (Embedding.lora_alpha s); [|rewrite andb_false_r in Hwf; discriminate].
  destruct (Embedding._lora_scaling s); [|rewrite andb_false_r in Hwf; discriminate].
  unfold size in *. rewrite Hs, Hm.
  destruct (is_matrix a); [exact Hwf|].
  rewrite andb_false_r in Hwf. discriminate.
Qed.

Lemma forward_wf (s : Embedding.t) (x : tensor Z) :
  wf s = true -> wf (fst (Embedding.forward s x)) = true.
Proof.
  intros Hwf. destruct (wf_base s Hwf) as [Hmw _].
  unfold Embedding.forward, tEmbedding.forward.
  pose proof (@embedding_shape x (tEmbedding.weight (Embedding.base s))
                (tEmbedding.padding_idx (Embedding.base s))
                (tEmbedding.max_norm (Embedding.base s)) (tEmbedding.norm_type (Embedding.base s))
                (tEmbedding.scale_grad_by_freq (Embedding.base s))
                (tEmbedding.sparse (Embedding.base s)) Hmw) as [M1 S1].
  destruct (embedding x (tEmbedding.weight (Embedding.base s)) _ _ _ _ _) as [w' r1].
  cbn [fst snd] in M1, S1.
  pose proof (@wf_set_weight s w' Hwf M1 S1) as Hwf1.
  destruct r1 as [emb|e]; [|exact Hwf1].
  cbn [Embedding.lora_r Embedding.lora_a Embedding.set_base].
  destruct (Embedding.lora_r s =? 0)%Z eqn:Er; [exact Hwf1|].
  destruct (Embedding.lora_a s) as [a|] eqn:Ha; [|exact Hwf1].
  cbn [getattr].
  apply Z.eqb_neq in Er.
  destruct (wf_active s Hwf Er) as (a0 & _ & _ & _ & Ha0 & _ & _ & _ & Hma & _).
  rewrite Ha in Ha0. injection Ha0 as <-.
  pose proof (@embedding_shape x a
                (tEmbedding.padding_idx (tEmbedding.set_weight (Embedding.base s) w'))
                (tEmbedding.max_norm (tEmbedding.set_weight (Embedding.base s) w'))
                (tEmbedding.norm_type (tEmbedding.set_weight (Embedding.base s) w'))
                (tEmbedding.scale_grad_by_freq (tEmbedding.set_weight (Embedding.base s) w'))
                (tEmbedding.sparse (tEmbedding.set_weight (Embedding.base s) w')) Hma)
    as [M2 S2].
  destruct (embedding x a _ _ _ _ _) as [a' r2]. cbn [fst snd] in *.
  apply (@wf_set_lora_a _ a a' Hwf1); [exact Ha | exact M2 | exact S2].
Qed.

Lemma merge_lora_wf (s : Embedding.t) :
  wf s = true -> wf (fst (Embedding.merge_lora s)) = true.
Proof.
  intros Hwf. destruct (Z.eq_dec (Embedding.lora_r s) 0) as [Hr|Hr].
  - unfold Embedding.merge_lora. rewrite Hr. exact Hwf.
  - destruct (wf_active s Hwf Hr) as (a & b & al & sc & Ha & Hb & Hal & Hsc & _).
    rewrite (merge_lora_active s Hwf Hr Ha Hb Hal Hsc). cbn [fst].
    destruct (wf_base s Hwf) as [Hmw Hpad].
    destruct (is_matrix_shape _ Hmw) as [Hs _].
    unfold wf.
    cbn [Embedding.base Embedding.lora_r tEmbedding.set_requires_grad tEmbedding.set_weight
         tEmbedding.weight tEmbedding.padding_idx Z.eqb].
    unfold merged_weight_spec.
    set (n := size (tEmbedding.weight (Embedding.base s)) 0) in *.
    set (d := size (tEmbedding.weight (Embedding.base s)) 1) in *.
    rewrite Hs.
    rewrite is_matrix_intro by apply length_tabulate2.
    cbn [size shape nth]. rewrite Hpad. reflexivity.
Qed.

(** Every layer reached from a constructed one by [forward] and
    [merge_lora] calls satisfies [wf]. *)
Lemma wf_run_calls (cs : list call) (s : Embedding.t) :
  wf s = true -> wf (run_calls s cs) = true.
Proof.
  revert s. induction cs as [|c cs IH]; intros s Hwf; [exact Hwf|].
  cbn [run_calls fold_left]. apply IH.
  destruct c as [x|]; [apply forward_wf | apply merge_lora_wf]; exact Hwf.
Qed.

End Invariant.

Lemma reachable_wf {SC : Scalar} num dim pad mn p sg sp r alpha ninf nw nb
      (s : Embedding.t) (cs : list call) :
  Embedding.__init__ num dim pad mn p sg sp r alpha ninf nw nb = Ok s ->
  wf (run_calls s cs) = true.
Proof.
  intros H. apply wf_run_calls.
  exact (proj1 (init_wf _ _ _ _ _ _ _ _ _ _ _ _ H)).
Qed.

(** ** Frame of [forward] *)

(** C10 (as amended).  When [max_norm] is not set, [forward] returns the
    layer exactly as it received it: base weight, factors, rank, alpha,
    cached scaling and sentinel index are all untouched, whether the call
    succeeds or raises. *)
Theorem forward_preserves_state_without_max_norm
        {SC : Scalar} (s : Embedding.t) (x : tensor Z) :
  tEmbedding.max_norm (Embedding.base s) = None ->
  fst (Embedding.forward s x) = s.
Proof.
  destruct s as [[n d pad mn p sg sp w rg] ni r a b al sc]. simpl. intros ->.
  unfold Embedding.forward, tEmbedding.forward. simpl.
  pose proof (embedding_without_max_norm x w pad p sg sp) as Hw.
  destruct (embedding x w pad None p sg sp) as [w' emb]. simpl in Hw. subst w'.
  destruct emb as [emb|e]; [|reflexivity].
  unfold Embedding.set_base, tEmbedding.set_weight. simpl.
  destruct (r =? 0)%Z; [reflexivity|].
  destruct a as [la|]; [|reflexivity]. simpl.
  pose proof (embedding_without_max_norm x la pad p sg sp) as Ha.
  destruct (embedding x la pad None p sg sp) as [la' ar]. simpl in Ha. subst la'.
  reflexivity.
Qed.

Lemma forward_preserves_state_without_max_norm_witness :
  tEmbedding.max_norm (Embedding.base Examples.trained_layer) = None
  /\ fst (Embedding.forward Examples.trained_layer Examples.x_mat) = Examples.trained_layer.
Proof.
  split; [reflexivity|].
  apply (@forward_preserves_state_without_max_norm float_scalar). reflexivity.
Defined.

(** C10 fails as stated: with [max_norm=1.] a lookup of rows 0 and 1
    rescales them in the stored table. *)
Lemma forward_changes_weight_with_max_norm :
  fst (Embedding.forward Examples.renorm_layer Examples.x_vec) <> Examples.renorm_layer.
Proof.
  intros H.
  apply (f_equal (fun s : @Embedding.t float_scalar =>
                    PrimFloat.eqb
                      (nth 0 (data (tEmbedding.weight (Embedding.base s))) (@zero float_scalar))
                      1%float)) in H.
  vm_compute in H. discriminate H.
Qed.

(** C6.  A layer of rank zero runs the parent class's [forward] and nothing
    else: same output, same effect on the base table; and a layer
    constructed with [lora_r = 0] holds no LoRA attribute. *)
Theorem rank_zero_forward_is_plain_embedding {SC : Scalar} :
  (forall (s : Embedding.t) (x : tensor Z),
      Embedding.lora_r s = 0%Z ->
      snd (Embedding.forward s x) = snd (tEmbedding.forward (Embedding.base s) x)
      /\ Embedding.base (fst (Embedding.forward s x))
         = fst (tEmbedding.forward (Embedding.base s) x))
  /\ (forall num dim pad mn p sg sp alpha ninf nw nb s,
         Embedding.__init__ num dim pad mn p sg sp 0 alpha ninf nw nb = Ok s ->
         Embedding.lora_r s = 0%Z
         /\ Embedding.lora_a s = None /\ Embedding.lora_b s = None
         /\ Embedding.lora_alpha s = None /\ Embedding._lora_scaling s = None).
Proof.
  split.
  - intros s x Hr. rewrite (forward_rank_zero s x Hr). split; reflexivity.
  - intros num dim pad mn p sg sp alpha ninf nw nb s.
    unfold Embedding.__init__.
    destruct (tEmbedding.__init__ num dim pad mn p sg sp nw) as [b|e]; cbn [bind];
      [|discriminate].
    destruct (match ninf with
              | None => Ok b
              | Some i =>
                  k <- index_int (size (tEmbedding.weight b) 0) i ;;
                  Ok (tEmbedding.set_weight b (fill_row (tEmbedding.weight b) k neg_inf))
              end) as [b1|e]; cbn [bind Z.eqb]; [|discriminate].
    intros H. injection H as <-. simpl. repeat split; reflexivity.
Qed.

Lemma rank_zero_forward_is_plain_embedding_witness :
  (snd (Embedding.forward Examples.plain_layer Examples.x_mat)
   = snd (tEmbedding.forward (Embedding.base Examples.plain_layer) Examples.x_mat))
  /\ Embedding.lora_a Examples.plain_layer = None.
Proof.
  split.
  - apply (proj1 (@rank_zero_forward_is_plain_embedding float_scalar)
                 Examples.plain_layer Examples.x_mat). reflexivity.
  - apply (proj2 (@rank_zero_forward_is_plain_embedding float_scalar)
                 3%Z 2%Z None None 2%float false false 1%float (Some (-1)%Z)
                 Examples.draw_w Examples.draw_b Examples.plain_layer).
    vm_compute. reflexivity.
Defined.

(** ** Construction *)

(** C9 (as amended).  A rank that is not zero and not a valid size makes the
    constructor fail: a negative int, an int that does not fit int64, or a
    float.  When the parent constructor and the sentinel fill succeed, the
    failure comes from [torch.empty] at the allocation of factor A: a
    [RuntimeError] for a negative int that fits int64, a [TypeError] for an
    int that does not fit and for a float. *)
Theorem init_invalid_rank_raises {SC : Scalar}
        num dim pad mn p sg sp (lora_r : pynum) alpha ninf nw nb :
  truthy lora_r = true ->
  match lora_r with
  | PyInt z => (z < 0)%Z \/ fits_int64 z = false
  | PyFloat _ => True
  end ->
  (exists e, Embedding.__init__any_rank num dim pad mn p sg sp lora_r alpha ninf nw nb
             = Raise e)
  /\ (forall s0,
         Embedding.__init__any_rank num dim pad mn p sg sp (PyInt 0) alpha ninf nw nb = Ok s0 ->
         Embedding.__init__any_rank num dim pad mn p sg sp lora_r alpha ninf nw nb
         = Raise (match lora_r with
                  | PyInt z => if fits_int64 z then RuntimeError else TypeError
                  | PyFloat _ => TypeError
                  end)).
Proof.
  intros Ht Hbad. unfold Embedding.__init__any_rank, Embedding.__init__.
  destruct (tEmbedding.__init__ num dim pad mn p sg sp nw) as [b|e] eqn:Eb; cbn [bind].
  2:{ destruct lora_r; (split; [eexists; reflexivity | discriminate]). }
  destruct (match ninf with
            | None => Ok b
            | Some i =>
                k <- index_int (size (tEmbedding.weight b) 0) i ;;
                Ok (tEmbedding.set_weight b (fill_row (tEmbedding.weight b) k neg_inf))
            end) as [b1|e]; cbn [bind].
  2:{ destruct lora_r; (split; [eexists; reflexivity | discriminate]). }
  assert (Hnum : fits_int64 num = true).
  { unfold tEmbedding.__init__ in Eb.
    destruct (match pad with Some _ => _ | None => _ end) as [pad'|e]; cbn [bind] in Eb;
      [|discriminate].
    unfold empty in Eb. cbn [forallb] in Eb.
    destruct (fits_int64 num); [reflexivity|]. cbn [andb negb bind] in Eb. discriminate. }
  destruct lora_r as [z|f].
  - cbn [truthy] in Ht. apply negb_true_iff in Ht. rewrite Ht.
    assert (He : empty [num; z]
                 = Raise (if fits_int64 z then RuntimeError else TypeError)).
    { unfold empty. cbn [forallb]. rewrite Hnum.
      destruct (fits_int64 z) eqn:Ez; cbn [andb negb]; [|reflexivity].
      destruct Hbad as [Hneg | Hfit]; [|discriminate].
      replace (0 <=? z)%Z with false by (symmetry; apply Z.leb_gt; exact Hneg).
      rewrite andb_false_r. reflexivity. }
    rewrite He. cbn [bind]. split; [eexists; reflexivity|]. intros s0 _. reflexivity.
  - rewrite Ht. cbn [negb empty_args as_ints option_map bind].
    split; [eexists; reflexivity|]. intros s0 _. reflexivity.
Qed.

Lemma init_invalid_rank_raises_witness :
  Embedding.__init__any_rank 3 2 None None 2%float false false (PyInt (-1)) 1%float
    (Some (-1)%Z) Examples.draw_w Examples.draw_b = Raise RuntimeError
  /\ Embedding.__init__any_rank 3 2 None None 2%float false false (PyFloat 2.5%float) 1%float
       (Some (-1)%Z) Examples.draw_w Examples.draw_b = Raise TypeError
  /\ Embedding.__init__any_rank 3 2 None None 2%float false false
       (PyInt (- 2 ^ 63 - 1)) 1%float (Some (-1)%Z) Examples.draw_w Examples.draw_b
     = Raise TypeError.
Proof.
  split; [|split].
  - apply (proj2 (@init_invalid_rank_raises float_scalar 3%Z 2%Z None None 2%float false false
                    (PyInt (-1)) 1%float (Some (-1)%Z) Examples.draw_w Examples.draw_b
                    eq_refl (or_introl eq_refl)) Examples.plain_layer).
    vm_compute. reflexivity.
  - apply (proj2 (@init_invalid_rank_raises float_scalar 3%Z 2%Z None None 2%float false false
                    (PyFloat 2.5%float) 1%float (Some (-1)%Z) Examples.draw_w Examples.draw_b
                    eq_refl I) Examples.plain_layer).
    vm_compute. reflexivity.
  - apply (proj2 (@init_invalid_rank_raises float_scalar 3%Z 2%Z None None 2%float false false
                    (PyInt (- 2 ^ 63 - 1)) 1%float (Some (-1)%Z) Examples.draw_w
                    Examples.draw_b eq_refl (or_intror eq_refl)) Examples.plain_layer).
    vm_compute. reflexivity.
Defined.

(** C9 fails as stated: the exception of a negative rank is not a
    [ValueError], and neither is that of a float rank. *)
Lemma init_negative_rank_not_value_error :
  Embedding.__init__ 3 2 None None 2%float false false (-1) 1%float None
    Examples.draw_w Examples.draw_b <> Raise ValueError
  /\ Embedding.__init__any_rank 3 2 None None 2%float false false (PyFloat 2.5%float) 1%float
       None Examples.draw_w Examples.draw_b <> Raise ValueError.
Proof. split; vm_compute; discriminate. Qed.

(** ** The encoder layer *)

Ltac step_bind :=
  match goal with
  | |- context [bind ?m _] =>
      match m with
      | context [bind _ _] => fail 1
      | _ => destruct m; simpl
      end
  end.

(** C8.  In pre-norm mode with [need_embedding], the layer normalises [x]
    (and [hidden]) with [norm1] before attention, adds the dropped-out
    attention output to [x], normalises with [norm2] before the feed-forward
    block and adds its output; the sum is returned as it is, with no layer
    norm applied after the last addition. *)
Theorem pre_norm_forward_is_not_renormalised {SC : Scalar}
        (add : tensor F -> tensor F -> result (tensor F))
        (self : EncoderLayer.t) (x attn_mask : tensor F) (hidden : option (tensor F))
        (need_weights : bool) :
  EncoderLayer.norm_first self = true ->
  EncoderLayer.forward add self x attn_mask hidden true need_weights
  = (nx <- EncoderLayer.norm1 self x ;;
     kv <- match hidden with
           | None => Ok nx
           | Some h => nh <- EncoderLayer.norm1 self h ;; cat [nh; nx] 0
           end ;;
     ea <- EncoderLayer.self_attn self nx kv attn_mask need_weights ;;
     de <- EncoderLayer.dropout1 self (fst ea) ;;
     x1 <- add x de ;;
     n2 <- EncoderLayer.norm2 self x1 ;;
     l1 <- EncoderLayer.linear1 self n2 ;;
     ac <- EncoderLayer.activation self l1 ;;
     d2 <- EncoderLayer.dropout2 self ac ;;
     l2 <- EncoderLayer.linear2 self d2 ;;
     d3 <- EncoderLayer.dropout3 self l2 ;;
     o <- add x1 d3 ;;
     Ok (Some o, snd ea)).
Proof.
  intros Hn.
  unfold EncoderLayer.forward, EncoderLayer.attention_inputs, EncoderLayer._ff.
  rewrite Hn.
  destruct (EncoderLayer.norm1 self x) as [nx|e]; cbn [bind]; [|reflexivity].
  assert (Hrest : forall kv,
    (ea <- EncoderLayer.self_attn self nx kv attn_mask need_weights ;;
     let '(e, a) := ea in
     de <- EncoderLayer.dropout1 self e ;;
     x1 <- add x de ;;
     n2 <- EncoderLayer.norm2 self x1 ;;
     f <- (l1 <- EncoderLayer.linear1 self n2 ;;
           ac <- EncoderLayer.activation self l1 ;;
           d2 <- EncoderLayer.dropout2 self ac ;;
           l2 <- EncoderLayer.linear2 self d2 ;;
           EncoderLayer.dropout3 self l2) ;;
     o <- add x1 f ;;
     Ok (Some o, a))
    = (ea <- EncoderLayer.self_attn self nx kv attn_mask need_weights ;;
       de <- EncoderLayer.dropout1 self (fst ea) ;;
       x1 <- add x de ;;
       n2 <- EncoderLayer.norm2 self x1 ;;
       l1 <- EncoderLayer.linear1 self n2 ;;
       ac <- EncoderLayer.activation self l1 ;;
       d2 <- EncoderLayer.dropout2 self ac ;;
       l2 <- EncoderLayer.linear2 self d2 ;;
       d3 <- EncoderLayer.dropout3 self l2 ;;
       o <- add x1 d3 ;;
       Ok (Some o, snd ea))).
  { intros kv.
    destruct (EncoderLayer.self_attn self nx kv attn_mask need_weights) as [[e a]|e];
      cbn [bind fst snd]; [|reflexivity].
    repeat step_bind; reflexivity. }
  destruct hidden as [h|].
  - destruct (EncoderLayer.norm1 self h) as [nh|e]; cbn [bind]; [|reflexivity].
    destruct (cat [nh; nx] 0) as [kv|e]; cbn [bind fst snd]; [|reflexivity].
    apply Hrest.
  - cbn [bind fst snd]. apply Hrest.
Qed.

Lemma pre_norm_forward_is_not_renormalised_witness :
  EncoderLayer.norm_first (Examples.probe_layer true) = true
  /\ EncoderLayer.forward iadd (Examples.probe_layer true) Examples.seg Examples.seg
       (Some Examples.cache) true true
     = Ok (Some (mkTensor [2; 1; 1]%nat [12; 16]%float),
           Some (mkTensor [4; 1; 1]%nat [1; 2; 3; 4]%float)).
Proof.
  split; [reflexivity|].
  rewrite (@pre_norm_forward_is_not_renormalised float_scalar iadd (Examples.probe_layer true)
             Examples.seg Examples.seg (Some Examples.cache) true eq_refl).
  vm_compute. reflexivity.
Defined.

(** C3, evaluated at a batch of two one-token segments with a cache of the
    same shape, post-norm: the query is the current segment, and the
    key-value sequence is [cat([hidden, x], dim=0)], of shape [4; 1; 1]:
    the cache was appended along the batch axis.  Concatenation along the
    sequence axis of the batch-first layout gives shape [2; 2; 1]. *)
Theorem key_value_concatenated_along_axis_zero (self : @EncoderLayer.t float_scalar) :
  EncoderLayer.norm_first self = false ->
  EncoderLayer.attention_inputs self Examples.seg (Some Examples.cache)
  = Ok (Examples.seg, mkTensor [4; 1; 1]%nat [1; 2; 3; 4]%float)
  /\ cat [Examples.cache; Examples.seg] 1
     = Ok (mkTensor [2; 2; 1]%nat [1; 3; 2; 4]%float).
Proof.
  intros Hn. unfold EncoderLayer.attention_inputs. rewrite Hn. split; reflexivity.
Qed.

Lemma key_value_concatenated_along_axis_zero_witness :
  EncoderLayer.norm_first (Examples.probe_layer false) = false
  /\ EncoderLayer.attention_inputs (Examples.probe_layer false) Examples.seg
       (Some Examples.cache)
     = Ok (Examples.seg, mkTensor [4; 1; 1]%nat [1; 2; 3; 4]%float).
Proof.
  split; [reflexivity|].
  apply (proj1 (key_value_concatenated_along_axis_zero (Examples.probe_layer false) eq_refl)).
Defined.

(** ** The sentinel row *)




(** ** [merge_lora] *)

Section MergedState.
Context {SC : Scalar}.

Lemma merge_lora_rank_zero (s : Embedding.t) :
  Embedding.lora_r s = 0%Z -> Embedding.merge_lora s = (s, Ok tt).
Proof. intros Hr. unfold Embedding.merge_lora. rewrite Hr. reflexivity. Qed.

Lemma merged_run_call (s : Embedding.t) (c : call) : merged s -> merged (run_call s c).
Proof.
  intros Hm. destruct c as [x|]; simpl.
  - destruct Hm as (Hr & Ha & Hb & Hal & Hsc).
    rewrite (forward_rank_zero s x Hr). simpl. repeat split; assumption.
  - rewrite (merge_lora_rank_zero s (proj1 Hm)). exact Hm.
Qed.

Lemma merged_run_calls (cs : list call) (s : Embedding.t) : merged s -> merged (run_calls s cs).
Proof.
  revert s. induction cs as [|c cs IH]; intros s Hm; simpl; [exact Hm|].
  apply IH, merged_run_call, Hm.
Qed.

End MergedState.

(** C2.  On an active layer whose cached scaling is [alpha / rank],
    [merge_lora] succeeds, replaces the base table by
    [base + (A @ B^T) * (alpha / rank)], switches gradient tracking on the
    base weight back on, and removes the factors, alpha and the cached
    scaling.  The layer is then merged, and stays merged under every later
    sequence of [forward] and [merge_lora] calls. *)
Theorem merge_lora_folds_correction {SC : Scalar}
        (s : Embedding.t) (a b : tensor F) (al : F) :
  wf s = true -> (0 < Embedding.lora_r s)%Z ->
  Embedding.lora_a s = Some a -> Embedding.lora_b s = Some b ->
  Embedding.lora_alpha s = Some al ->
  Embedding._lora_scaling s = Some (fdiv al (of_Z (Embedding.lora_r s))) ->
  snd (Embedding.merge_lora s) = Ok tt
  /\ tEmbedding.weight (Embedding.base (fst (Embedding.merge_lora s)))
     = merged_weight_spec (tEmbedding.weight (Embedding.base s)) a b
         (fdiv al (of_Z (Embedding.lora_r s)))
  /\ tEmbedding.weight_requires_grad (Embedding.base (fst (Embedding.merge_lora s))) = true
  /\ merged (fst (Embedding.merge_lora s))
  /\ forall cs, merged (run_calls (fst (Embedding.merge_lora s)) cs).
Proof.
  intros Hwf Hr Ha Hb Hal Hsc.
  assert (Hr' : Embedding.lora_r s <> 0%Z) by lia.
  rewrite (merge_lora_active s Hwf Hr' Ha Hb Hal Hsc). cbn [fst snd].
  assert (Hm : merged (Embedding.mk
       (tEmbedding.set_requires_grad
          (tEmbedding.set_weight (Embedding.base s)
             (merged_weight_spec (tEmbedding.weight (Embedding.base s)) a b
                (fdiv al (of_Z (Embedding.lora_r s))))) true)
       (Embedding.neg_inf_idx s) 0 None None None None))
    by (repeat split; reflexivity).
  split; [reflexivity|]. split; [reflexivity|]. split; [reflexivity|].
  split; [exact Hm|]. intros cs. apply merged_run_calls, Hm.
Qed.

Lemma merge_lora_folds_correction_witness :
  tEmbedding.weight (Embedding.base (fst (Embedding.merge_lora Examples.trained_layer)))
  = mkTensor [3; 2]%nat [2; 3.25; 4; 6; neg_infinity; neg_infinity]%float
  /\ merged (fst (Embedding.merge_lora Examples.trained_layer)).
Proof.
  destruct (@merge_lora_folds_correction float_scalar Examples.trained_layer
              (mkTensor [3; 2]%nat [1; 2; 0; 4; 0; 0]%float)
              (mkTensor [2; 2]%nat [1; 0.5; 0.5; 1]%float) 1%float
              eq_refl eq_refl eq_refl eq_refl eq_refl eq_refl)
    as (_ & Hw & _ & Hm & _).
  split; [|exact Hm]. rewrite Hw. vm_compute. reflexivity.
Defined.

(** C4.  On every well-formed layer [merge_lora] returns normally, and a
    second call returns normally leaving the layer exactly as the first
    call left it; on a layer of rank zero it changes nothing. *)
Theorem merge_lora_idempotent {SC : Scalar} (s : Embedding.t) :
  wf s = true ->
  snd (Embedding.merge_lora s) = Ok tt
  /\ Embedding.merge_lora (fst (Embedding.merge_lora s))
     = (fst (Embedding.merge_lora s), Ok tt)
  /\ (Embedding.lora_r s = 0%Z -> Embedding.merge_lora s = (s, Ok tt)).
Proof.
  intros Hwf. destruct (Z.eq_dec (Embedding.lora_r s) 0) as [Hr|Hr].
  - rewrite (merge_lora_rank_zero s Hr). cbn [fst snd].
    rewrite (merge_lora_rank_zero s Hr). repeat split; reflexivity.
  - destruct (wf_active s Hwf Hr) as (a & b & al & sc & Ha & Hb & Hal & Hsc & _).
    rewrite (merge_lora_active s Hwf Hr Ha Hb Hal Hsc). cbn [fst snd].
    split; [reflexivity|]. split; [reflexivity|].
    intros Hr0. contradiction.
Qed.

Lemma merge_lora_idempotent_witness :
  wf Examples.trained_layer = true
  /\ Embedding.merge_lora (fst (Embedding.merge_lora Examples.trained_layer))
     = (fst (Embedding.merge_lora Examples.trained_layer), Ok tt).
Proof.
  split; [reflexivity|].
  apply (@merge_lora_idempotent float_scalar Examples.trained_layer eq_refl).
Defined.

(** ** [forward] with LoRA active *)

(** On an index tensor with at least one dimension and indices inside the
    vocabulary, an active layer returns, in the shape of [x] followed by the
    embedding dimension, the base row of each index plus the scaling times
    the product of the row of factor A with the transpose of B.  The tables
    are the ones the layer holds after the call; they are the ones it held
    before unless [max_norm] is set. *)
Lemma forward_lora_formula {SC : Scalar}
      (s : Embedding.t) (a b : tensor F) (sc : F) (x : tensor Z) :
  wf s = true -> (0 < Embedding.lora_r s)%Z ->
  Embedding.lora_a s = Some a -> Embedding.lora_b s = Some b ->
  Embedding._lora_scaling s = Some sc ->
  wf_tensor x = true -> (1 <= ndim x)%nat ->
  in_range (size (tEmbedding.weight (Embedding.base s)) 0) x = true ->
  exists w' a',
    tEmbedding.weight (Embedding.base (fst (Embedding.forward s x))) = w'
    /\ Embedding.lora_a (fst (Embedding.forward s x)) = Some a'
    /\ (tEmbedding.max_norm (Embedding.base s) = None
        -> w' = tEmbedding.weight (Embedding.base s) /\ a' = a)
    /\ snd (Embedding.forward s x) = Ok (lora_output_spec w' a' b sc x).
Proof.
  intros Hwf Hr Ha Hb Hsc Hx Hnd Hin.
  assert (Hr' : Embedding.lora_r s <> 0%Z) by lia.
  rewrite (@forward_active _ s a b sc x Hwf Hr' Ha Hb Hsc Hx Hnd Hin). cbn [fst snd].
  eexists. eexists. split; [reflexivity|]. split; [reflexivity|].
  split; [|reflexivity].
  intros Hmn. rewrite Hmn. split; apply embedding_without_max_norm.
Qed.

(** C1, evaluated at a 0-dimensional index tensor: the parent lookup returns
    the row of the index, a tensor of one dimension, and
    [emb.flatten(end_dim=-2)] then raises [IndexError]; the same layer
    answers the formula of the claim on a 2 x 2 index tensor. *)
Theorem forward_lora_raises_on_scalar_index :
  snd (Embedding.forward Examples.trained_layer Examples.x_scalar) = Raise IndexError
  /\ snd (tEmbedding.forward (Embedding.base Examples.trained_layer) Examples.x_scalar)
     = Ok (mkTensor [2%nat] [3; 4]%float)
  /\ snd (Embedding.forward Examples.trained_layer Examples.x_mat)
     = Ok (lora_output_spec (mkTensor [3; 2]%nat [1; 2; 3; 4; neg_infinity; neg_infinity]%float)
             (mkTensor [3; 2]%nat [1; 2; 0; 4; 0; 0]%float)
             (mkTensor [2; 2]%nat [1; 0.5; 0.5; 1]%float) 0.5%float Examples.x_mat).
Proof.
  split; [vm_compute; reflexivity|]. split; [vm_compute; reflexivity|].
  destruct (@forward_lora_formula float_scalar Examples.trained_layer
              (mkTensor [3; 2]%nat [1; 2; 0; 4; 0; 0]%float)
              (mkTensor [2; 2]%nat [1; 0.5; 0.5; 1]%float) 0.5%float Examples.x_mat
              eq_refl eq_refl eq_refl eq_refl eq_refl eq_refl ltac:(vm_compute; lia) eq_refl)
    as (w' & a' & Hw & Ha & Hsame & Hout).
  destruct (Hsame eq_refl) as [-> ->]. exact Hout.
Qed.

(** C5 (as amended).  Right after construction with a positive rank, on an
    index tensor with at least one dimension and indices inside the
    vocabulary, [forward] returns exactly what the base lookup returns,
    provided the scalars absorb the zero correction: a zero row does not
    exceed [max_norm], [0 + 0 * b] is [0] for the entries [b] of factor B,
    and [e + scaling * 0] is [e] for the entries [e] of the base table. *)
Theorem fresh_forward_equals_base_lookup {SC : Scalar}
        num dim pad mn p sg sp (r : Z) alpha ninf nw nb (s : Embedding.t) (x : tensor Z) :
  Embedding.__init__ num dim pad mn p sg sp r alpha ninf nw nb = Ok s ->
  (0 < r)%Z ->
  wf_tensor x = true -> (1 <= ndim x)%nat -> in_range (Z.to_nat num) x = true ->
  (forall m, mn = Some m -> fgt (vnorm p (repeat zero (Z.to_nat r))) m = false) ->
  (forall i j, (i < Z.to_nat dim)%nat -> (j < Z.to_nat r)%nat ->
               fadd zero (fmul zero (nb i j)) = zero) ->
  Forall (fun e => fadd e (fmul (fdiv alpha (of_Z r)) zero) = e)
         (data (tEmbedding.weight (fst (tEmbedding.forward (Embedding.base s) x)))) ->
  snd (Embedding.forward s x) = snd (tEmbedding.forward (Embedding.base s) x)
  /\ snd (Embedding.forward s x)
     = Ok (base_output_spec
             (tEmbedding.weight (fst (tEmbedding.forward (Embedding.base s) x))) x).
Proof.
  intros Hinit Hr Hx Hnd Hin Hnorm Hdot Hadd.
  destruct (init_wf _ _ _ _ _ _ _ _ _ _ _ _ Hinit) as (Hwf & Hs0 & Hs1 & Hmn & Hp).
  apply Embedding_init_inv in Hinit as (b0 & w1 & _ & _ & [[H0 _] | [_ Es]]); [lia|].
  set (A0 := mkTensor [Z.to_nat num; Z.to_nat r]
               (tabulate2 (Z.to_nat num) (Z.to_nat r) (fun _ _ => zero))) in *.
  set (B0 := mkTensor [Z.to_nat dim; Z.to_nat r]
               (tabulate2 (Z.to_nat dim) (Z.to_nat r) nb)) in *.
  set (sc := fdiv alpha (of_Z r)) in *.
  assert (Ha : Embedding.lora_a s = Some A0) by (rewrite Es; reflexivity).
  assert (Hb : Embedding.lora_b s = Some B0) by (rewrite Es; reflexivity).
  assert (Hsc : Embedding._lora_scaling s = Some sc) by (rewrite Es; reflexivity).
  assert (Hr' : Embedding.lora_r s <> 0%Z) by (rewrite Es; cbn; lia).
  clear Es. rewrite <- Hs0 in Hin.
  pose proof (@forward_active _ s A0 B0 sc x Hwf Hr' Ha Hb Hsc Hx Hnd Hin) as Hfw.
  cbv zeta in Hfw. rewrite Hs0 in Hin.
  rewrite Hmn, Hp in Hfw.
  assert (Hzero : fst (embedding x A0 (tEmbedding.padding_idx (Embedding.base s)) mn p
                         (tEmbedding.scale_grad_by_freq (Embedding.base s))
                         (tEmbedding.sparse (Embedding.base s))) = A0)
    by (apply embedding_zero_table; assumption).
  rewrite Hzero in Hfw. clear Hzero.
  destruct (wf_base s Hwf) as [Hmw Hpad].
  rewrite <- Hs0 in Hin.
  destruct (embedding_ok x (tEmbedding.weight (Embedding.base s))
              (tEmbedding.padding_idx (Embedding.base s)) mn p
              (tEmbedding.scale_grad_by_freq (Embedding.base s))
              (tEmbedding.sparse (Embedding.base s)) Hmw Hpad Hin) as (Ew & Mw & Sw).
  unfold tEmbedding.forward in *. rewrite Hmn, Hp in *.
  destruct (embedding x (tEmbedding.weight (Embedding.base s))
              (tEmbedding.padding_idx (Embedding.base s)) mn p
              (tEmbedding.scale_grad_by_freq (Embedding.base s))
              (tEmbedding.sparse (Embedding.base s))) as [w' r1].
  cbn [fst snd tEmbedding.weight tEmbedding.set_weight] in *. subst r1.
  rewrite Hfw. cbn [snd].
  assert (Hspec : lora_output_spec w' A0 B0 sc x = base_output_spec w' x).
  { apply lora_output_zero_factor with (n := Z.to_nat num) (r := Z.to_nat r).
    - exact Mw.
    - apply is_matrix_intro, length_tabulate2.
    - unfold size. rewrite Sw. exact Hs0.
    - unfold size at 2. rewrite Sw. symmetry. exact Hs1.
    - reflexivity.
    - rewrite <- Hs0. exact Hin.
    - apply Forall_tabulate2. exact Hdot.
    - exact Hadd. }
  rewrite Hspec. split; reflexivity.
Qed.

Lemma fresh_forward_equals_base_lookup_witness :
  Embedding.__init__ 3 2 None None 2%float false false 2 1%float (Some (-1)%Z)
    Examples.draw_w Examples.draw_b = Ok Examples.fresh_layer
  /\ snd (Embedding.forward Examples.fresh_layer Examples.x_mat)
     = snd (tEmbedding.forward (Embedding.base Examples.fresh_layer) Examples.x_mat).
Proof.
  assert (Hinit : Embedding.__init__ 3 2 None None 2%float false false 2 1%float (Some (-1)%Z)
                    Examples.draw_w Examples.draw_b = Ok Examples.fresh_layer)
    by (vm_compute; reflexivity).
  split; [exact Hinit|].
  apply (@fresh_forward_equals_base_lookup float_scalar 3%Z 2%Z None None 2%float false false
           2%Z 1%float (Some (-1)%Z) Examples.draw_w Examples.draw_b
           Examples.fresh_layer Examples.x_mat Hinit).
  - lia.
  - reflexivity.
  - vm_compute. lia.
  - reflexivity.
  - intros m Hm. discriminate Hm.
  - intros i j _ _. unfold Examples.draw_b. destruct (Nat.eqb i j); reflexivity.
  - vm_compute. repeat constructor.
Defined.

(** C5 fails as stated: with [lora_alpha = inf] the zero product is scaled
    to NaN, so the fresh layer returns NaN where the base lookup returns the
    stored row. *)
Lemma fresh_forward_differs_with_infinite_alpha :
  Embedding.__init__ 3 2 None None 2%float false false 2 infinity None
    Examples.draw_w Examples.draw_b = Ok Examples.inf_alpha_layer
  /\ snd (Embedding.forward Examples.inf_alpha_layer Examples.x_vec)
     <> snd (tEmbedding.forward (Embedding.base Examples.inf_alpha_layer) Examples.x_vec).
Proof.
  split; [vm_compute; reflexivity|].
  intros H.
  apply (f_equal (fun r : result (tensor float) =>
                    match r with
                    | Ok t => PrimFloat.eqb (hd 0%float (data t)) 1%float
                    | Raise _ => false
                    end)) in H.
  vm_compute in H. discriminate H.
Qed.

(** ** [chained_collate] *)

Section ChainedCollateFacts.
Variables A B : Type.

Lemma length_append_each (x : list A) (subs : list (list A)) :
  length (ChainedCollate.append_each x subs) = length subs.
Proof.
  revert subs. induction x as [|y x IH]; intros [|s subs]; simpl; try reflexivity.
  rewrite IH. reflexivity.
Qed.

Lemma nth_append_each (x : list A) (subs : list (list A)) (k : nat) :
  (k < length subs)%nat ->
  nth k (ChainedCollate.append_each x subs) []
  = nth k subs [] ++ match nth_error x k with Some y => [y] | None => [] end.
Proof.
  revert subs k. induction x as [|y x IH]; intros [|s subs] k Hk; simpl in Hk; try lia.
  - simpl. destruct k; simpl; rewrite app_nil_r; reflexivity.
  - destruct k as [|k]; simpl; [reflexivity|]. apply IH. lia.
Qed.

Lemma fold_append_each (batch : list (list A)) (subs : list (list A)) (k : nat) :
  (k < length subs)%nat ->
  length (fold_left (fun s x => ChainedCollate.append_each x s) batch subs) = length subs
  /\ nth k (fold_left (fun s x => ChainedCollate.append_each x s) batch subs) []
     = nth k subs [] ++ ChainedCollate.column k batch.
Proof.
  revert subs. induction batch as [|x batch IH]; intros subs Hk; simpl.
  - rewrite app_nil_r. split; reflexivity.
  - destruct (IH (ChainedCollate.append_each x subs)) as [Hl Hn].
    { rewrite length_append_each. exact Hk. }
    rewrite Hl, Hn, length_append_each, nth_append_each by exact Hk.
    rewrite <- app_assoc. split; reflexivity.
Qed.

Lemma fill_sub_batches_columns (n : nat) (batch : list (list A)) :
  ChainedCollate.fill_sub_batches n batch
  = map (fun k => ChainedCollate.column k batch) (seq 0 n).
Proof.
  apply (nth_ext _ _ [] []).
  - destruct n as [|n].
    + unfold ChainedCollate.fill_sub_batches. simpl.
      induction batch as [|x batch IH]; [reflexivity|]. simpl.
      destruct x; exact IH.
    + unfold ChainedCollate.fill_sub_batches.
      rewrite (proj1 (@fold_append_each batch (repeat [] (S n)) 0%nat
                        ltac:(rewrite repeat_length; lia))).
      rewrite repeat_length, length_map, length_seq. reflexivity.
  - intros k Hk.
    assert (Hn : (k < n)%nat).
    { destruct n as [|n].
      - exfalso. revert Hk. unfold ChainedCollate.fill_sub_batches. simpl.
        induction batch as [|x batch IH]; simpl; [lia|]. destruct x; exact IH.
      - unfold ChainedCollate.fill_sub_batches in Hk.
        rewrite (proj1 (@fold_append_each batch (repeat [] (S n)) 0%nat
                          ltac:(rewrite repeat_length; lia))) in Hk.
        rewrite repeat_length in Hk. exact Hk. }
    unfold ChainedCollate.fill_sub_batches.
    rewrite (proj2 (@fold_append_each batch (repeat [] n) k
                      ltac:(rewrite repeat_length; exact Hn))).
    rewrite (nth_indep (map (fun k => ChainedCollate.column k batch) (seq 0 n)) []
               (ChainedCollate.column 0 batch))
      by (rewrite length_map, length_seq; exact Hn).
    rewrite (map_nth (fun k => ChainedCollate.column k batch)), seq_nth by exact Hn.
    replace (nth k (repeat [] n) []) with (@nil A); [reflexivity|].
    symmetry. apply nth_repeat.
Qed.

End ChainedCollateFacts.

Section ChainedCollateResults.
Variables A B : Type.

Lemma apply_each_ok (c : nat -> list A) (fns : list (list A -> result B))
      (s : nat) (out : list B) :
  ChainedCollate.apply_each (map c (seq s (length fns))) fns = Ok out
  <-> length out = length fns
      /\ forall k f, nth_error fns k = Some f ->
                     exists v, nth_error out k = Some v /\ f (c (s + k)%nat) = Ok v.
Proof.
  revert s out. induction fns as [|f fns IH]; intros s out; simpl.
  - split.
    + intros H. injection H as <-. split; [reflexivity|].
      intros k g Hk. destruct k; discriminate Hk.
    + intros [Hl _]. destruct out; [reflexivity | discriminate Hl].
  - split.
    + intros H. destruct (f (c s)) as [v|e] eqn:Ef; cbn [bind] in H; [|discriminate].
      destruct (ChainedCollate.apply_each (map c (seq (S s) (length fns))) fns)
        as [vs|e] eqn:Er; cbn [bind] in H; [|discriminate].
      injection H as <-. apply IH in Er as [Hl Hk]. split; [simpl; lia|].
      intros k g Hg. destruct k as [|k]; simpl in Hg.
      * injection Hg as <-. exists v. rewrite Nat.add_0_r. split; [reflexivity | exact Ef].
      * destruct (Hk k g Hg) as (v' & Hv & Hf). exists v'.
        replace (s + S k)%nat with (S s + k)%nat by lia. split; assumption.
    + intros [Hl Hk]. destruct out as [|v out]; [discriminate Hl|].
      destruct (Hk 0%nat f eq_refl) as (v0 & Hv0 & Hf0). simpl in Hv0. injection Hv0 as <-.
      rewrite Nat.add_0_r in Hf0. rewrite Hf0. cbn [bind].
      assert (Hr : ChainedCollate.apply_each (map c (seq (S s) (length fns))) fns = Ok out).
      { apply IH. split; [simpl in Hl; lia|].
        intros k g Hg. destruct (Hk (S k) g Hg) as (v' & Hv & Hf).
        exists v'. replace (S s + k)%nat with (s + S k)%nat by lia. split; assumption. }
      rewrite Hr. reflexivity.
Qed.

Lemma apply_each_raise (c : nat -> list A) (fns : list (list A -> result B))
      (s k : nat) (f : list A -> result B) (e : exn) :
  nth_error fns k = Some f -> f (c (s + k)%nat) = Raise e ->
  (forall j g, (j < k)%nat -> nth_error fns j = Some g -> exists v, g (c (s + j)%nat) = Ok v) ->
  ChainedCollate.apply_each (map c (seq s (length fns))) fns = Raise e.
Proof.
  revert s k. induction fns as [|g0 fns IH]; intros s k Hk Hf Hbefore.
  - destruct k; discriminate Hk.
  - simpl. destruct k as [|k]; simpl in Hk.
    + injection Hk as ->. rewrite Nat.add_0_r in Hf. rewrite Hf. reflexivity.
    + destruct (Hbefore 0%nat g0 ltac:(lia) eq_refl) as (v & Hv).
      rewrite Nat.add_0_r in Hv. rewrite Hv. cbn [bind].
      rewrite (IH (S s) k Hk).
      * reflexivity.
      * replace (S s + k)%nat with (s + S k)%nat by lia. exact Hf.
      * intros j g Hj Hg. replace (S s + j)%nat with (s + S j)%nat by lia.
        apply (Hbefore (S j) g); [lia | exact Hg].
Qed.

End ChainedCollateResults.

(** X1.  [chained_collate] succeeds with [out] exactly when [out] has one
    entry per collate function and entry [k] is what function [k] returns on
    the components [k] of the samples that have one, taken in batch order. *)
Theorem chained_collate_ok_iff (A B : Type) (fns : list (list A -> result B))
        (batch : list (list A)) (out : list B) :
  ChainedCollate.chained_collate fns batch = Ok out
  <-> length out = length fns
      /\ forall k f, nth_error fns k = Some f ->
                     exists v, nth_error out k = Some v
                               /\ f (ChainedCollate.column k batch) = Ok v.
Proof.
  unfold ChainedCollate.chained_collate. rewrite fill_sub_batches_columns.
  apply (apply_each_ok (fun k => ChainedCollate.column k batch) fns 0 out).
Qed.

(** X2.  When collate function [k] raises on its sub-batch and the functions
    before it return, [chained_collate] raises that exception. *)
Theorem chained_collate_first_error (A B : Type) (fns : list (list A -> result B))
        (batch : list (list A)) (k : nat) (f : list A -> result B) (e : exn) :
  nth_error fns k = Some f ->
  f (ChainedCollate.column k batch) = Raise e ->
  (forall j g, (j < k)%nat -> nth_error fns j = Some g ->
               exists v, g (ChainedCollate.column j batch) = Ok v) ->
  ChainedCollate.chained_collate fns batch = Raise e.
Proof.
  intros Hk Hf Hbefore.
  unfold ChainedCollate.chained_collate. rewrite fill_sub_batches_columns.
  apply (@apply_each_raise A B (fun k => ChainedCollate.column k batch) fns 0 k f e Hk Hf).
  exact Hbefore.
Qed.

Lemma chained_collate_first_error_witness :
  ChainedCollate.chained_collate
    [ChainedCollate.sum_fn; ChainedCollate.sum_fn; ChainedCollate.sum_fn;
     ChainedCollate.nonempty_len]
    ChainedCollate.ragged = Raise ValueError.
Proof.
  apply (@chained_collate_first_error nat nat _ ChainedCollate.ragged 3
           ChainedCollate.nonempty_len ValueError).
  - reflexivity.
  - reflexivity.
  - intros j g Hj Hg.
    destruct j as [|[|[|j]]]; [| | |lia]; injection Hg as <-; eexists; reflexivity.
Defined.

Section ChainedCollateShape.
Variable A : Type.

Lemma column_rect (d : A) (k : nat) (batch : list (list A)) :
  (forall x, In x batch -> (k < length x)%nat) ->
  ChainedCollate.column k batch = map (fun x => nth k x d) batch.
Proof.
  intros H. unfold ChainedCollate.column.
  induction batch as [|x batch IH]; [reflexivity|]. simpl.
  assert (Hx : (k < length x)%nat) by (apply H; left; reflexivity).
  destruct (nth_error x k) as [y|] eqn:E.
  - rewrite (nth_error_nth _ _ d E). simpl. f_equal.
    apply IH. intros x' Hx'. apply H. right. exact Hx'.
  - apply nth_error_None in E. lia.
Qed.

Lemma list_as_map_nth (d : A) (l : list A) :
  map (fun k => nth k l d) (seq 0 (length l)) = l.
Proof.
  apply (nth_ext _ _ d d).
  - rewrite length_map, length_seq. reflexivity.
  - intros k Hk. rewrite length_map, length_seq in Hk.
    rewrite (nth_indep _ d (nth 0 l d)) by (rewrite length_map, length_seq; exact Hk).
    rewrite (map_nth (fun k => nth k l d)), seq_nth by exact Hk. reflexivity.
Qed.

Lemma apply_each_identity (subs : list (list A)) :
  ChainedCollate.apply_each subs (repeat (@Ok (list A)) (length subs)) = Ok subs.
Proof.
  induction subs as [|s subs IH]; [reflexivity|]. simpl. rewrite IH. reflexivity.
Qed.

Lemma column_firstn (n k : nat) (batch : list (list A)) :
  (k < n)%nat ->
  ChainedCollate.column k (map (firstn n) batch) = ChainedCollate.column k batch.
Proof.
  intros Hk. unfold ChainedCollate.column.
  induction batch as [|x batch IH]; [reflexivity|]. simpl.
  rewrite nth_error_firstn. replace (k <? n)%nat with true by (symmetry; apply Nat.ltb_lt; exact Hk).
  rewrite IH. reflexivity.
Qed.

End ChainedCollateShape.

(** X3.  With as many identity collate functions as the samples have
    components, [chained_collate] transposes the batch: output [k] lists
    component [k] of every sample.  Collating the output again, with one
    identity function per sample, gives the batch back. *)
Theorem chained_collate_transpose_round_trip (A : Type) (d : A) (n : nat)
        (batch : list (list A)) :
  (forall x, In x batch -> length x = n) ->
  exists cols,
    ChainedCollate.chained_collate (repeat (@Ok (list A)) n) batch = Ok cols
    /\ cols = map (fun k => map (fun x => nth k x d) batch) (seq 0 n)
    /\ ChainedCollate.chained_collate (repeat (@Ok (list A)) (length batch)) cols = Ok batch.
Proof.
  intros Hrect.
  assert (Hcols : ChainedCollate.fill_sub_batches n batch
                  = map (fun k => map (fun x => nth k x d) batch) (seq 0 n)).
  { rewrite fill_sub_batches_columns. apply map_ext_in. intros k Hk. apply in_seq in Hk.
    apply column_rect. intros x Hx. rewrite (Hrect x Hx). lia. }
  exists (map (fun k => map (fun x => nth k x d) batch) (seq 0 n)).
  split; [|split; [reflexivity|]].
  - unfold ChainedCollate.chained_collate. rewrite repeat_length, Hcols.
    rewrite <- (apply_each_identity (map (fun k => map (fun x => nth k x d) batch) (seq 0 n))).
    rewrite length_map, length_seq. reflexivity.
  - unfold ChainedCollate.chained_collate. rewrite repeat_length.
    rewrite fill_sub_batches_columns.
    assert (Hback : map (fun i => ChainedCollate.column i
                                    (map (fun k => map (fun x => nth k x d) batch) (seq 0 n)))
                        (seq 0 (length batch)) = batch).
    { transitivity (map (fun i => nth i batch []) (seq 0 (length batch)));
        [|apply list_as_map_nth].
      apply map_ext_in. intros i Hi. apply in_seq in Hi.
      rewrite (@column_rect _ d i).
      - rewrite map_map.
        transitivity (map (fun k => nth k (nth i batch []) d) (seq 0 (length (nth i batch []))));
          [|apply list_as_map_nth].
        rewrite (Hrect (nth i batch [])) by (apply nth_In; lia).
        apply map_ext_in. intros k Hk.
        rewrite (nth_indep _ d ((fun x => nth k x d) [])) by (rewrite length_map; lia).
        rewrite (map_nth (fun x => nth k x d)). reflexivity.
      - intros c Hc. apply in_map_iff in Hc as (k & <- & _). rewrite length_map. lia. }
    rewrite Hback. apply apply_each_identity.
Qed.

Lemma chained_collate_transpose_round_trip_witness :
  ChainedCollate.chained_collate (repeat (@Ok (list nat)) 2) [[1; 10]; [2; 20]; [3; 30]]%nat
  = Ok [[1; 2; 3]; [10; 20; 30]]%nat
  /\ ChainedCollate.chained_collate (repeat (@Ok (list nat)) 3) [[1; 2; 3]; [10; 20; 30]]%nat
     = Ok [[1; 10]; [2; 20]; [3; 30]]%nat.
Proof.
  destruct (@chained_collate_transpose_round_trip nat 0%nat 2%nat
              [[1; 10]; [2; 20]; [3; 30]]%nat) as (cols & H1 & -> & H2).
  - intros x [<- | [<- | [<- | []]]]; reflexivity.
  - split; [exact H1 | exact H2].
Defined.

(** X4.  Components of a sample beyond the number of collate functions are
    never read: cutting every sample to that many components changes
    nothing. *)
Theorem chained_collate_ignores_extra_components (A B : Type)
        (fns : list (list A -> result B)) (batch : list (list A)) :
  ChainedCollate.chained_collate fns (map (firstn (length fns)) batch)
  = ChainedCollate.chained_collate fns batch.
Proof.
  unfold ChainedCollate.chained_collate. rewrite !fill_sub_batches_columns.
  f_equal. apply map_ext_in. intros k Hk. apply in_seq in Hk.
  apply column_firstn. lia.
Qed.

(** ** [Embedding]: merging and the forward pass *)

(** X5.  After [merge_lora], [forward] is a plain lookup in the merged
    table.  On a well-formed active layer without [max_norm], [merge_lora]
    returns normally, and [forward] then returns, for every index tensor
    with indices inside the vocabulary, in the shape of [x] followed by the
    embedding dimension, the rows [base[i] + (A[i] . B^T) * scaling] of its
    indices [i].  This includes index tensors without dimensions, on which
    the layer raises before merging. *)
Theorem forward_after_merge_lora {SC : Scalar}
        (s : Embedding.t) (a b : tensor F) (sc : F) (x : tensor Z) :
  wf s = true -> Embedding.lora_r s <> 0%Z ->
  Embedding.lora_a s = Some a -> Embedding.lora_b s = Some b ->
  Embedding._lora_scaling s = Some sc ->
  tEmbedding.max_norm (Embedding.base s) = None ->
  in_range (size (tEmbedding.weight (Embedding.base s)) 0) x = true ->
  snd (Embedding.merge_lora s) = Ok tt
  /\ snd (Embedding.forward (fst (Embedding.merge_lora s)) x)
     = Ok (mkTensor (shape x ++ [size (tEmbedding.weight (Embedding.base s)) 1])
             (concat
                (map (fun i =>
                        map (fun j =>
                               fadd (get2 (tEmbedding.weight (Embedding.base s)) (Z.to_nat i) j)
                                    (fmul (dot (size a 1) (get2 a (Z.to_nat i)) (get2 b j)) sc))
                            (seq 0 (size (tEmbedding.weight (Embedding.base s)) 1)))
                     (data x)))).
Proof.
  intros Hwf Hr Ha Hb Hsc Hmn Hin.
  destruct (wf_active s Hwf Hr)
    as (a' & b' & al & sc' & Ha' & Hb' & Hal & _ & Hma & Hmb & H0 & H1 & H2).
  rewrite Ha in Ha'. injection Ha' as <-. rewrite Hb in Hb'. injection Hb' as <-.
  destruct (wf_base s Hwf) as [Hmw Hpad].
  rewrite (merge_lora_active s Hwf Hr Ha Hb Hal Hsc). cbn [fst snd].
  split; [reflexivity|].
  rewrite forward_rank_zero by reflexivity. cbn [snd Embedding.base].
  unfold tEmbedding.forward.
  cbn [tEmbedding.weight tEmbedding.padding_idx tEmbedding.max_norm tEmbedding.norm_type
       tEmbedding.scale_grad_by_freq tEmbedding.sparse tEmbedding.set_requires_grad
       tEmbedding.set_weight].
  rewrite Hmn.
  set (w := tEmbedding.weight (Embedding.base s)) in *.
  set (wm := merged_weight_spec w a b sc).
  destruct (is_matrix_shape _ Hmw) as [Hsw Hlw].
  assert (Hmm : is_matrix wm = true).
  { unfold wm, merged_weight_spec. rewrite Hsw at 1. apply is_matrix_intro, length_tabulate2. }
  assert (Hs1 : size wm 1 = size w 1) by reflexivity.
  pose proof (@embedding_ok _ x wm (tEmbedding.padding_idx (Embedding.base s)) None
                (tEmbedding.norm_type (Embedding.base s))
                (tEmbedding.scale_grad_by_freq (Embedding.base s))
                (tEmbedding.sparse (Embedding.base s)) Hmm Hpad Hin) as (Hout & _ & _).
  rewrite embedding_without_max_norm in Hout.
  destruct (embedding x wm _ None _ _ _) as [w1 r1]. cbn [snd] in Hout |- *.
  rewrite Hout. f_equal.
  unfold base_output_spec. rewrite Hs1. f_equal.
  apply concat_rows_ext. intros i j Hi Hj.
  apply in_range_Forall in Hin. rewrite Forall_forall in Hin. specialize (Hin i Hi).
  unfold index_ok in Hin.
  unfold wm, merged_weight_spec. rewrite Hsw at 1.
  rewrite get2_tabulate by (try exact Hj; lia). reflexivity.
Qed.

Lemma forward_after_merge_lora_witness :
  snd (Embedding.forward Examples.trained_layer Examples.x_scalar) = Raise IndexError
  /\ snd (Embedding.merge_lora Examples.trained_layer) = Ok tt
  /\ snd (Embedding.forward (fst (Embedding.merge_lora Examples.trained_layer))
            Examples.x_scalar)
     = Ok (mkTensor [2%nat] [4; 6]%float).
Proof.
  split; [vm_compute; reflexivity|].
  apply (@forward_after_merge_lora float_scalar Examples.trained_layer
           (mkTensor [3; 2]%nat [1; 2; 0; 4; 0; 0]%float)
           (mkTensor [2; 2]%nat [1; 0.5; 0.5; 1]%float)
           0.5%float Examples.x_scalar); try reflexivity.
  discriminate.
Defined.

Section ForwardResult.
Context {SC : Scalar}.

Lemma embedding_result (x : tensor Z) (w : tensor F) (pad : option Z) (mn : option F)
      (p : F) (sg sp : bool) (emb : tensor F) :
  snd (embedding x w pad mn p sg sp) = Ok emb ->
  emb = base_output_spec (fst (embedding x w pad mn p sg sp)) x.
Proof.
  unfold embedding. destruct (check_padding_idx (size w 0) pad); [|discriminate].
  destruct (match mn with
            | Some m => embedding_renorm_ w x m p
            | None => (w, Ok tt)
            end) as [w' r].
  cbn [fst snd]. destruct r as [[]|e]; cbn [bind]; [|discriminate].
  unfold torch_embedding.
  destruct (negb (Nat.eqb (ndim w') 2)); [discriminate|].
  destruct (forallb _ (data x)); [|discriminate].
  intros H. injection H as <-. reflexivity.
Qed.

Lemma wf_base_output_spec (w : tensor F) (x : tensor Z) :
  wf_tensor x = true -> wf_tensor (base_output_spec w x) = true.
Proof.
  unfold wf_tensor, base_output_spec. cbn [shape data]. intros H.
  apply Nat.eqb_eq in H. apply Nat.eqb_eq.
  rewrite (length_concat_rows (fun i => get2 w (Z.to_nat i))), numel_app, H.
  simpl. lia.
Qed.

Lemma forward_result_shape (s : Embedding.t) (x : tensor Z) (out : tensor F) :
  wf s = true ->
  snd (Embedding.forward s x) = Ok out ->
  shape out = shape x ++ [size (tEmbedding.weight (Embedding.base s)) 1]
  /\ (wf_tensor x = true \/ Embedding.lora_r s <> 0%Z -> wf_tensor out = true).
Proof.
  intros Hwf. destruct (wf_base s Hwf) as [Hmw _].
  unfold Embedding.forward, tEmbedding.forward.
  pose proof (@embedding_shape _ x (tEmbedding.weight (Embedding.base s))
                (tEmbedding.padding_idx (Embedding.base s))
                (tEmbedding.max_norm (Embedding.base s)) (tEmbedding.norm_type (Embedding.base s))
                (tEmbedding.scale_grad_by_freq (Embedding.base s))
                (tEmbedding.sparse (Embedding.base s)) Hmw) as [_ Hsh].
  pose proof (@embedding_result x (tEmbedding.weight (Embedding.base s))
                (tEmbedding.padding_idx (Embedding.base s))
                (tEmbedding.max_norm (Embedding.base s)) (tEmbedding.norm_type (Embedding.base s))
                (tEmbedding.scale_grad_by_freq (Embedding.base s))
                (tEmbedding.sparse (Embedding.base s))) as Hres.
  destruct (embedding x (tEmbedding.weight (Embedding.base s)) _ _ _ _ _) as [w' r].
  cbn [fst snd] in Hsh, Hres.
  assert (Hd : size w' 1 = size (tEmbedding.weight (Embedding.base s)) 1)
    by (unfold size; rewrite Hsh; reflexivity).
  destruct r as [emb|e]; [|discriminate].
  specialize (Hres emb eq_refl).
  cbn [Embedding.lora_r Embedding.set_base Embedding.lora_a].
  destruct (Embedding.lora_r s =? 0)%Z eqn:Er.
  - cbn [snd]. intros H. injection H as <-. rewrite Hres. split.
    + unfold base_output_spec. cbn [shape]. rewrite Hd. reflexivity.
    + intros [Hx | Hr]; [apply wf_base_output_spec, Hx|].
      apply Z.eqb_eq in Er. contradiction.
  - destruct (Embedding.lora_a s) as [la|]; cbn [getattr]; [|discriminate].
    destruct (embedding x la _ _ _ _ _) as [la' ar]. cbn [snd].
    destruct ar as [a1|e]; cbn [bind]; [|discriminate].
    destruct (flatten_end_m2 emb) as [ef|e]; cbn [bind]; [|discriminate].
    destruct (flatten_end_m2 a1) as [af|e]; cbn [bind]; [|discriminate].
    destruct (getattr _) as [lb|e]; cbn [bind]; [|discriminate].
    destruct (getattr _) as [sc|e]; cbn [bind]; [|discriminate].
    unfold addmm.
    destruct (negb _); [discriminate|]. destruct (negb _); [discriminate|].
    destruct (shape_eqb _ _); [|discriminate]. cbn [bind]. unfold view. cbn [shape data].
    destruct (Nat.eqb _ _) eqn:Ev; [|discriminate].
    intros H. injection H as <-. apply Nat.eqb_eq in Ev. split.
    + cbn [shape]. rewrite Hres. unfold base_output_spec. cbn [shape]. rewrite Hd. reflexivity.
    + intros _. unfold wf_tensor. cbn [shape data]. apply Nat.eqb_eq.
      rewrite Ev, length_tabulate2. simpl. lia.
Qed.

End ForwardResult.

(** X6.  Whenever [forward] returns a tensor on a well-formed layer, its
    shape is the shape of the index tensor followed by the embedding
    dimension, and it holds as many elements as that shape says when the
    index tensor does. *)
Theorem forward_output_shape {SC : Scalar} (s : Embedding.t) (x : tensor Z) (out : tensor F) :
  wf s = true -> wf_tensor x = true ->
  snd (Embedding.forward s x) = Ok out ->
  shape out = shape x ++ [size (tEmbedding.weight (Embedding.base s)) 1]
  /\ length (data out)
     = (numel (shape x) * size (tEmbedding.weight (Embedding.base s)) 1)%nat.
Proof.
  intros Hwf Hx Hout.
  destruct (forward_result_shape s x Hwf Hout) as [Hs Hw]. split; [exact Hs|].
  specialize (Hw (or_introl Hx)). unfold wf_tensor in Hw. apply Nat.eqb_eq in Hw.
  rewrite Hw, Hs, numel_app. simpl. lia.
Qed.

Lemma forward_output_shape_witness :
  exists out,
    snd (Embedding.forward Examples.trained_layer Examples.x_mat) = Ok out
    /\ shape out = [2; 2; 2]%nat /\ length (data out) = 8%nat.
Proof.
  eexists. split; [reflexivity|].
  apply (@forward_output_shape float_scalar Examples.trained_layer Examples.x_mat);
    reflexivity.
Defined.

(** ** [Embedding]: indices outside the vocabulary *)

Section OutOfRange.
Context {SC : Scalar}.

Lemma renorm_rows_raises (m p : F) (idx : list Z) (w : tensor F) (prev : option Z) (e : exn) :
  snd (renorm_rows w prev idx m p) = Raise e -> e = IndexError.
Proof.
  revert w prev. induction idx as [|i idx IH]; intros w prev; cbn [renorm_rows].
  - discriminate.
  - destruct (match prev with Some j => (i =? j)%Z | None => false end); [apply IH|].
    unfold wrap_index.
    destruct ((0 <=? i)%Z && (i <? Z.of_nat (size w 0))%Z).
    + destruct (fgt _ m); apply IH.
    + destruct ((- Z.of_nat (size w 0) <=? i)%Z && (i <? 0)%Z).
      * destruct (fgt _ m); apply IH.
      * cbn [snd]. intros H. injection H as <-. reflexivity.
Qed.

Lemma embedding_out_of_range (x : tensor Z) (w : tensor F) (pad : option Z) (mn : option F)
      (p : F) (sg sp : bool) :
  is_matrix w = true ->
  check_padding_idx (size w 0) pad = Ok tt ->
  in_range (size w 0) x = false ->
  snd (embedding x w pad mn p sg sp) = Raise IndexError.
Proof.
  intros Hm Hpad Hx. unfold embedding. rewrite Hpad.
  assert (Hlook : forall w', is_matrix w' = true -> shape w' = shape w ->
                             torch_embedding w' x = Raise IndexError).
  { intros w' Hm' Hs'. unfold torch_embedding.
    destruct (is_matrix_shape _ Hm') as [Hs2 _].
    replace (ndim w') with 2%nat by (unfold ndim; rewrite Hs2; reflexivity).
    cbn [Nat.eqb negb].
    replace (size w' 0) with (size w 0) by (unfold size; rewrite Hs'; reflexivity).
    unfold in_range in Hx. rewrite Hx. reflexivity. }
  destruct mn as [m|].
  - unfold embedding_renorm_.
    pose proof (@renorm_rows_shape _ m p (sort_indices (data x)) w None Hm) as [Hm' Hs'].
    pose proof (@renorm_rows_raises m p (sort_indices (data x)) w None) as Hr.
    destruct (renorm_rows w None (sort_indices (data x)) m p) as [w' r].
    cbn [fst snd] in *. destruct r as [[]|e]; cbn [bind].
    + apply Hlook; assumption.
    + rewrite (Hr e eq_refl). reflexivity.
  - cbn [snd bind]. apply Hlook; [exact Hm | reflexivity].
Qed.

End OutOfRange.

(** X7.  On a well-formed layer, an index tensor holding an index below
    zero or not below the number of embeddings makes [forward] raise
    [IndexError], at every rank and with or without [max_norm]. *)
Theorem forward_index_out_of_range {SC : Scalar} (s : Embedding.t) (x : tensor Z) :
  wf s = true ->
  in_range (size (tEmbedding.weight (Embedding.base s)) 0) x = false ->
  snd (Embedding.forward s x) = Raise IndexError.
Proof.
  intros Hwf Hx. destruct (wf_base s Hwf) as [Hmw Hpad].
  unfold Embedding.forward, tEmbedding.forward.
  pose proof (@embedding_out_of_range _ x (tEmbedding.weight (Embedding.base s))
                (tEmbedding.padding_idx (Embedding.base s))
                (tEmbedding.max_norm (Embedding.base s)) (tEmbedding.norm_type (Embedding.base s))
                (tEmbedding.scale_grad_by_freq (Embedding.base s))
                (tEmbedding.sparse (Embedding.base s)) Hmw Hpad Hx) as Hr.
  destruct (embedding x (tEmbedding.weight (Embedding.base s)) _ _ _ _ _) as [w' r].
  cbn [snd] in Hr. rewrite Hr. reflexivity.
Qed.

Lemma forward_index_out_of_range_witness :
  snd (Embedding.forward Examples.trained_layer (mkTensor [2%nat] [0%Z; (-1)%Z]))
  = Raise IndexError
  /\ snd (Embedding.forward Examples.renorm_layer (mkTensor [2%nat] [3%Z; 0%Z]))
     = Raise IndexError.
Proof.
  split.
  - apply (@forward_index_out_of_range float_scalar Examples.trained_layer); reflexivity.
  - apply (@forward_index_out_of_range float_scalar Examples.renorm_layer); reflexivity.
Defined.

(** ** [Embedding]: what [forward] writes when [max_norm] is set *)

Section RowFrame.
Context {SC : Scalar}.

Lemma renorm_rows_other_rows (m p : F) (idx : list Z) (w : tensor F) (prev : option Z)
      (i j : nat) :
  is_matrix w = true -> (i < size w 0)%nat -> (j < size w 1)%nat ->
  Forall (fun z => wrap_index (size w 0) z <> Ok i) idx ->
  get2 (fst (renorm_rows w prev idx m p)) i j = get2 w i j.
Proof.
  revert w prev. induction idx as [|z idx IH]; intros w prev Hm Hi Hj Hall; cbn [renorm_rows].
  - reflexivity.
  - inversion Hall as [|? ? Hz Hrest]; subst.
    destruct (match prev with Some j0 => (z =? j0)%Z | None => false end);
      [apply IH; assumption|].
    destruct (wrap_index (size w 0) z) as [k|e] eqn:Ek; [|reflexivity].
    destruct (fgt _ m); [|apply IH; assumption].
    rewrite IH.
    + rewrite get2_map_row by assumption.
      destruct (Nat.eqb i k) eqn:E; [|reflexivity].
      apply Nat.eqb_eq in E. subst k. contradiction.
    + apply map_row_is_matrix, Hm.
    + exact Hi.
    + exact Hj.
    + exact Hrest.
Qed.

Lemma embedding_other_rows (x : tensor Z) (w : tensor F) (pad : option Z) (mn : option F)
      (p : F) (sg sp : bool) (i j : nat) :
  is_matrix w = true -> (i < size w 0)%nat -> (j < size w 1)%nat ->
  (forall z, In z (data x) -> wrap_index (size w 0) z <> Ok i) ->
  get2 (fst (embedding x w pad mn p sg sp)) i j = get2 w i j.
Proof.
  intros Hm Hi Hj Hx. unfold embedding.
  destruct (check_padding_idx (size w 0) pad); [|reflexivity].
  destruct mn as [m|]; [|reflexivity].
  unfold embedding_renorm_.
  pose proof (@renorm_rows_other_rows m p (sort_indices (data x)) w None i j Hm Hi Hj) as H.
  destruct (renorm_rows w None (sort_indices (data x)) m p) as [w' r]. cbn [fst] in *.
  apply H. apply sort_indices_Forall. apply Forall_forall. exact Hx.
Qed.

End RowFrame.

(** X8.  [forward] writes only to the rows it looks up.  On a well-formed
    layer, a row [i] of the base table that no index of [x] selects
    (directly or, for a negative index, after wrapping) holds after the call
    what it held before, and so does row [i] of factor A; this holds with
    [max_norm] set and whether the call returns or raises. *)
Theorem forward_keeps_rows_not_looked_up {SC : Scalar}
        (s : Embedding.t) (x : tensor Z) (i : nat) :
  wf s = true ->
  (i < size (tEmbedding.weight (Embedding.base s)) 0)%nat ->
  (forall z, In z (data x) ->
             wrap_index (size (tEmbedding.weight (Embedding.base s)) 0) z <> Ok i) ->
  (forall j, (j < size (tEmbedding.weight (Embedding.base s)) 1)%nat ->
             get2 (tEmbedding.weight (Embedding.base (fst (Embedding.forward s x)))) i j
             = get2 (tEmbedding.weight (Embedding.base s)) i j)
  /\ (forall a a', Embedding.lora_a s = Some a ->
                   Embedding.lora_a (fst (Embedding.forward s x)) = Some a' ->
                   forall j, (j < size a 1)%nat -> get2 a' i j = get2 a i j).
Proof.
  intros Hwf Hi Hx. destruct (wf_base s Hwf) as [Hmw _].
  pose proof (fun j Hj => @embedding_other_rows _ x (tEmbedding.weight (Embedding.base s))
                (tEmbedding.padding_idx (Embedding.base s))
                (tEmbedding.max_norm (Embedding.base s)) (tEmbedding.norm_type (Embedding.base s))
                (tEmbedding.scale_grad_by_freq (Embedding.base s))
                (tEmbedding.sparse (Embedding.base s)) i j Hmw Hi Hj Hx) as Hw.
  unfold Embedding.forward, tEmbedding.forward.
  destruct (embedding x (tEmbedding.weight (Embedding.base s)) _ _ _ _ _) as [w' r].
  cbn [fst] in Hw.
  destruct r as [emb|e].
  2:{ cbn. split; [exact Hw|]. intros a a' Ha Ha'. rewrite Ha in Ha'. injection Ha' as <-.
      reflexivity. }
  cbn [Embedding.lora_r Embedding.set_base Embedding.lora_a tEmbedding.padding_idx
       tEmbedding.max_norm tEmbedding.norm_type tEmbedding.scale_grad_by_freq
       tEmbedding.sparse tEmbedding.set_weight].
  destruct (Embedding.lora_r s =? 0)%Z eqn:Er.
  { cbn. split; [exact Hw|]. intros a a' Ha Ha'. rewrite Ha in Ha'. injection Ha' as <-.
    reflexivity. }
  apply Z.eqb_neq in Er.
  destruct (wf_active s Hwf Er) as (a & b & al & sc & Ha & _ & _ & _ & Hma & _ & H0 & _ & _).
  rewrite Ha. cbn [getattr].
  pose proof (fun j Hj H => @embedding_other_rows _ x a
                (tEmbedding.padding_idx (Embedding.base s))
                (tEmbedding.max_norm (Embedding.base s)) (tEmbedding.norm_type (Embedding.base s))
                (tEmbedding.scale_grad_by_freq (Embedding.base s))
                (tEmbedding.sparse (Embedding.base s)) i j Hma H Hj) as Hla.
  destruct (embedding x a _ _ _ _ _) as [la' ar]. cbn [fst] in Hla.
  cbn. split; [exact Hw|].
  intros a0 a' Ha0 Ha'. injection Ha0 as <-. injection Ha' as <-.
  intros j Hj. apply Hla; [exact Hj | rewrite H0; exact Hi |].
  rewrite H0. exact Hx.
Qed.

Lemma forward_keeps_rows_not_looked_up_witness :
  get2 (tEmbedding.weight (Embedding.base
          (fst (Embedding.forward Examples.renorm_layer (mkTensor [1%nat] [0%Z]))))) 1 0
  = get2 (tEmbedding.weight (Embedding.base Examples.renorm_layer)) 1 0.
Proof.
  refine (proj1 (@forward_keeps_rows_not_looked_up float_scalar Examples.renorm_layer
                   (mkTensor [1%nat] [0%Z]) 1%nat eq_refl _ _) 0%nat _).
  - cbn. lia.
  - intros z [<- | []]. cbn. discriminate.
  - cbn. lia.
Defined.

(** ** [Embedding]: the constructor *)

Section InitWeight.
Context {SC : Scalar}.

Lemma tEmbedding_init_weight num dim pad mn p sg sp nw (b : tEmbedding.t) (i j : nat) :
  tEmbedding.__init__ num dim pad mn p sg sp nw = Ok b ->
  (i < Z.to_nat num)%nat -> (j < Z.to_nat dim)%nat ->
  get2 (tEmbedding.weight b) i j
  = if selects_row (Z.to_nat num) pad i then zero else nw i j.
Proof.
  unfold tEmbedding.__init__. intros H Hi Hj.
  destruct (match pad with Some _ => _ | None => _ end) as [pad'|e] eqn:Epad;
    cbn [bind] in H; [|discriminate].
  destruct (empty [num; dim]) as [shp|e] eqn:Eshp; cbn [bind] in H; [|discriminate].
  apply empty_pair in Eshp as (Hn & Hd & ->). cbn [nth] in H.
  set (w := mkTensor [Z.to_nat num; Z.to_nat dim]
                     (tabulate2 (Z.to_nat num) (Z.to_nat dim) nw)) in *.
  assert (Hw : is_matrix w = true) by (apply is_matrix_intro, length_tabulate2).
  assert (Hget : get2 w i j = nw i j) by (apply get2_tabulate; assumption).
  assert (Hrel : match pad, pad' with
                 | None, None => True
                 | Some q, Some q' =>
                     wrap_index (Z.to_nat num) q = wrap_index (Z.to_nat num) q'
                 | _, _ => False
                 end).
  { destruct pad as [q|]; [|injection Epad as <-; exact I].
    destruct (0 <? q)%Z eqn:E0.
    - destruct (q <? num)%Z; [|discriminate]. injection Epad as <-. reflexivity.
    - destruct (q <? 0)%Z eqn:E1.
      + destruct (- num <=? q)%Z eqn:E2; [|discriminate]. injection Epad as <-.
        apply Z.ltb_lt in E1. apply Z.leb_le in E2. unfold wrap_index.
        replace ((0 <=? q)%Z && (q <? Z.of_nat (Z.to_nat num))%Z) with false
          by (symmetry; apply andb_false_iff; left; apply Z.leb_gt; lia).
        replace ((- Z.of_nat (Z.to_nat num) <=? q)%Z && (q <? 0)%Z) with true
          by (symmetry; apply andb_true_iff; split; [apply Z.leb_le | apply Z.ltb_lt]; lia).
        replace ((0 <=? num + q)%Z && (num + q <? Z.of_nat (Z.to_nat num))%Z) with true
          by (symmetry; apply andb_true_iff; split; [apply Z.leb_le | apply Z.ltb_lt]; lia).
        f_equal. lia.
      + injection Epad as <-. reflexivity. }
  destruct pad as [q|], pad' as [q'|]; try contradiction.
  - unfold selects_row. rewrite Hrel.
    destruct (wrap_index (Z.to_nat num) q') as [k|e]; cbn [bind] in H; [|discriminate].
    injection H as <-. cbn [tEmbedding.weight]. unfold fill_row.
    rewrite get2_map_row by assumption.
    rewrite (Nat.eqb_sym k i). destruct (Nat.eqb i k); [reflexivity | exact Hget].
  - cbn [bind] in H. injection H as <-. cbn [tEmbedding.weight selects_row]. exact Hget.
Qed.

End InitWeight.

(** X9.  The base table right after construction, element by element: the
    row of [neg_inf_idx] holds negative infinity, the row of [padding_idx]
    holds zero unless it is also the sentinel row, and every other element is
    the value [init.normal_] drew for it.  Negative indices count from the
    end. *)
Theorem init_weight_entries {SC : Scalar}
        num dim pad mn p sg sp r alpha ninf nw nb (s : Embedding.t) (i j : nat) :
  Embedding.__init__ num dim pad mn p sg sp r alpha ninf nw nb = Ok s ->
  (i < Z.to_nat num)%nat -> (j < Z.to_nat dim)%nat ->
  get2 (tEmbedding.weight (Embedding.base s)) i j
  = if selects_row (Z.to_nat num) ninf i then neg_inf
    else if selects_row (Z.to_nat num) pad i then zero
    else nw i j.
Proof.
  intros H Hi Hj. apply Embedding_init_inv in H as (b & w1 & Hb & Hw1 & Hs).
  pose proof (@tEmbedding_init_weight _ num dim pad mn p sg sp nw b i j Hb Hi Hj) as Hget.
  apply tEmbedding_init_inv in Hb as (Hm & H0 & H1 & _).
  assert (Hw : tEmbedding.weight (Embedding.base s) = w1)
    by (destruct Hs as [[_ ->] | [_ ->]]; reflexivity).
  rewrite Hw. destruct ninf as [z|].
  - destruct Hw1 as (k & Hk & ->). unfold selects_row at 1. rewrite <- H0, Hk.
    unfold fill_row. rewrite get2_map_row by (rewrite ?H0, ?H1; assumption).
    rewrite (Nat.eqb_sym k i). destruct (Nat.eqb i k); [reflexivity|].
    rewrite H0. exact Hget.
  - subst w1. cbn [selects_row]. exact Hget.
Qed.

Lemma init_weight_entries_witness :
  get2 (tEmbedding.weight (Embedding.base Examples.fresh_layer)) 2 1 = neg_infinity
  /\ get2 (tEmbedding.weight (Embedding.base Examples.fresh_layer)) 1 0 = Examples.draw_w 1 0.
Proof.
  split.
  - apply (@init_weight_entries float_scalar 3%Z 2%Z None None 2%float false false 2%Z
             1%float (Some (-1)%Z) Examples.draw_w Examples.draw_b Examples.fresh_layer 2 1).
    + vm_compute. reflexivity.
    + cbn. lia.
    + cbn. lia.
  - apply (@init_weight_entries float_scalar 3%Z 2%Z None None 2%float false false 2%Z
             1%float (Some (-1)%Z) Examples.draw_w Examples.draw_b Examples.fresh_layer 1 0).
    + vm_compute. reflexivity.
    + cbn. lia.
    + cbn. lia.
Defined.

(** X10.  A [padding_idx] other than zero that lies outside the table makes
    the constructor raise [AssertionError]; this is checked first, so
    neither the sizes, the rank nor the sentinel index matter. *)
Theorem init_padding_idx_out_of_range {SC : Scalar}
        num dim (q : Z) mn p sg sp r alpha ninf nw nb :
  q <> 0%Z -> ~ (- num <= q < num)%Z ->
  Embedding.__init__ num dim (Some q) mn p sg sp r alpha ninf nw nb = Raise AssertionError.
Proof.
  intros Hq Hout. unfold Embedding.__init__, tEmbedding.__init__.
  destruct (0 <? q)%Z eqn:E0.
  - apply Z.ltb_lt in E0.
    replace (q <? num)%Z with false by (symmetry; apply Z.ltb_ge; lia). reflexivity.
  - apply Z.ltb_ge in E0.
    replace (q <? 0)%Z with true by (symmetry; apply Z.ltb_lt; lia).
    replace (- num <=? q)%Z with false by (symmetry; apply Z.leb_gt; lia). reflexivity.
Qed.

Lemma init_padding_idx_out_of_range_witness :
  Embedding.__init__ 3 2 (Some 3%Z) None 2%float false false (-1) 1%float (Some 7%Z)
    Examples.draw_w Examples.draw_b = Raise AssertionError.
Proof.
  apply (@init_padding_idx_out_of_range float_scalar); lia.
Defined.

(** X11.  When the parent constructor succeeds, a [neg_inf_idx] outside
    [-num_embeddings, num_embeddings) makes the constructor fail whatever
    the rank, because the sentinel row is filled before the LoRA factors are
    allocated: with [IndexError] when the index fits int64, with
    [ValueError] when it does not. *)
Theorem init_sentinel_out_of_range {SC : Scalar}
        num dim pad mn p sg sp r alpha (z : Z) nw nb (b : tEmbedding.t) :
  tEmbedding.__init__ num dim pad mn p sg sp nw = Ok b ->
  ~ (- num <= z < num)%Z ->
  Embedding.__init__ num dim pad mn p sg sp r alpha (Some z) nw nb
  = Raise (if fits_int64 z then IndexError else ValueError).
Proof.
  intros Hb Hout. unfold Embedding.__init__. rewrite Hb. cbn [bind].
  apply tEmbedding_init_inv in Hb as (_ & H0 & _ & Hn & _).
  rewrite H0. unfold index_int. destruct (fits_int64 z); [|reflexivity].
  unfold wrap_index.
  replace ((0 <=? z)%Z && (z <? Z.of_nat (Z.to_nat num))%Z) with false
    by (symmetry; apply andb_false_iff;
        destruct (Z.lt_ge_cases z 0); [left; apply Z.leb_gt | right; apply Z.ltb_ge]; lia).
  replace ((- Z.of_nat (Z.to_nat num) <=? z)%Z && (z <? 0)%Z) with false
    by (symmetry; apply andb_false_iff;
        destruct (Z.lt_ge_cases z 0); [left; apply Z.leb_gt | right; apply Z.ltb_ge]; lia).
  reflexivity.
Qed.

Lemma init_sentinel_out_of_range_witness :
  Embedding.__init__ 3 2 (Some (-1)%Z) None 2%float false false (-2) 1%float (Some (-4)%Z)
    Examples.draw_w Examples.draw_b = Raise IndexError
  /\ Embedding.__init__ 3 2 (Some (-1)%Z) None 2%float false false 2 1%float
       (Some (2 ^ 63)%Z) Examples.draw_w Examples.draw_b = Raise ValueError.
Proof.
  split.
  - eapply (@init_sentinel_out_of_range float_scalar 3%Z 2%Z (Some (-1)%Z) None 2%float
              false false (-2)%Z 1%float (-4)%Z).
    + vm_compute. reflexivity.
    + lia.
  - eapply (@init_sentinel_out_of_range float_scalar 3%Z 2%Z (Some (-1)%Z) None 2%float
              false false 2%Z 1%float (2 ^ 63)%Z).
    + vm_compute. reflexivity.
    + intros [_ H]. vm_compute in H. discriminate H.
Defined.

(** ** [Embedding]: a constructed layer in use *)

Section Lifecycle.
Context {SC : Scalar}.

Lemma forward_weight_shape (s : Embedding.t) (x : tensor Z) :
  wf s = true ->
  shape (tEmbedding.weight (Embedding.base (fst (Embedding.forward s x))))
  = shape (tEmbedding.weight (Embedding.base s)).
Proof.
  intros Hwf. destruct (wf_base s Hwf) as [Hmw _].
  unfold Embedding.forward, tEmbedding.forward.
  pose proof (@embedding_shape _ x (tEmbedding.weight (Embedding.base s))
                (tEmbedding.padding_idx (Embedding.base s))
                (tEmbedding.max_norm (Embedding.base s)) (tEmbedding.norm_type (Embedding.base s))
                (tEmbedding.scale_grad_by_freq (Embedding.base s))
                (tEmbedding.sparse (Embedding.base s)) Hmw) as [_ Hsh].
  destruct (embedding x (tEmbedding.weight (Embedding.base s)) _ _ _ _ _) as [w' r].
  cbn [fst] in Hsh. destruct r as [emb|e]; [|exact Hsh].
  cbn [Embedding.lora_r Embedding.set_base Embedding.lora_a].
  destruct (Embedding.lora_r s =? 0)%Z; [exact Hsh|].
  destruct (Embedding.lora_a s) as [la|]; cbn [getattr]; [|exact Hsh].
  destruct (embedding x la _ _ _ _ _) as [la' ar]. exact Hsh.
Qed.

Lemma merge_lora_weight_shape (s : Embedding.t) :
  wf s = true ->
  snd (Embedding.merge_lora s) = Ok tt
  /\ shape (tEmbedding.weight (Embedding.base (fst (Embedding.merge_lora s))))
     = shape (tEmbedding.weight (Embedding.base s)).
Proof.
  intros Hwf. destruct (Z.eq_dec (Embedding.lora_r s) 0) as [Hr|Hr].
  - unfold Embedding.merge_lora. rewrite Hr. split; reflexivity.
  - destruct (wf_active s Hwf Hr) as (a & b & al & sc & Ha & Hb & Hal & Hsc & _).
    rewrite (merge_lora_active s Hwf Hr Ha Hb Hal Hsc). split; reflexivity.
Qed.

Lemma run_calls_weight_shape (cs : list call) (s : Embedding.t) :
  wf s = true ->
  shape (tEmbedding.weight (Embedding.base (run_calls s cs)))
  = shape (tEmbedding.weight (Embedding.base s)).
Proof.
  revert s. induction cs as [|c cs IH]; intros s Hwf; [reflexivity|].
  cbn [run_calls fold_left]. fold (run_calls (run_call s c) cs).
  destruct c as [x|]; cbn [run_call].
  - rewrite IH by (apply forward_wf, Hwf). apply forward_weight_shape, Hwf.
  - rewrite IH by (apply merge_lora_wf, Hwf). apply merge_lora_weight_shape, Hwf.
Qed.

Lemma forward_succeeds (s : Embedding.t) (x : tensor Z) :
  wf s = true -> wf_tensor x = true -> (1 <= ndim x)%nat ->
  in_range (size (tEmbedding.weight (Embedding.base s)) 0) x = true ->
  exists out, snd (Embedding.forward s x) = Ok out.
Proof.
  intros Hwf Hx Hnd Hin. destruct (Z.eq_dec (Embedding.lora_r s) 0) as [Hr|Hr].
  - rewrite (forward_rank_zero s x Hr). cbn [snd]. unfold tEmbedding.forward.
    destruct (wf_base s Hwf) as [Hmw Hpad].
    pose proof (@embedding_ok _ x (tEmbedding.weight (Embedding.base s))
                  (tEmbedding.padding_idx (Embedding.base s))
                  (tEmbedding.max_norm (Embedding.base s))
                  (tEmbedding.norm_type (Embedding.base s))
                  (tEmbedding.scale_grad_by_freq (Embedding.base s))
                  (tEmbedding.sparse (Embedding.base s)) Hmw Hpad Hin) as (Hout & _).
    destruct (embedding x (tEmbedding.weight (Embedding.base s)) _ _ _ _ _) as [w' r].
    cbn [snd] in *. eexists. exact Hout.
  - destruct (wf_active s Hwf Hr) as (a & b & al & sc & Ha & Hb & Hal & Hsc & _).
    rewrite (@forward_active _ s a b sc x Hwf Hr Ha Hb Hsc Hx Hnd Hin). cbn [snd].
    eexists. reflexivity.
Qed.

End Lifecycle.

(** X12.  A constructed layer does not fail in use.  After any sequence of
    [forward] and [merge_lora] calls on it, with any arguments,
    [merge_lora] returns normally, and [forward] on an index tensor with at
    least one dimension and indices inside the vocabulary returns a tensor
    whose shape is the shape of the index tensor followed by
    [embedding_dim]. *)
Theorem constructed_layer_stays_usable {SC : Scalar}
        num dim pad mn p sg sp r alpha ninf nw nb
        (s : Embedding.t) (cs : list call) (x : tensor Z) :
  Embedding.__init__ num dim pad mn p sg sp r alpha ninf nw nb = Ok s ->
  wf_tensor x = true -> (1 <= ndim x)%nat -> in_range (Z.to_nat num) x = true ->
  snd (Embedding.merge_lora (run_calls s cs)) = Ok tt
  /\ exists out, snd (Embedding.forward (run_calls s cs) x) = Ok out
                 /\ shape out = shape x ++ [Z.to_nat dim].
Proof.
  intros Hinit Hx Hnd Hin.
  destruct (init_wf _ _ _ _ _ _ _ _ _ _ _ _ Hinit) as (Hwf & H0 & H1 & _).
  pose proof (wf_run_calls cs s Hwf) as Hwf'.
  pose proof (run_calls_weight_shape cs s Hwf) as Hsh.
  assert (H0' : size (tEmbedding.weight (Embedding.base (run_calls s cs))) 0 = Z.to_nat num)
    by (unfold size in *; rewrite Hsh; exact H0).
  assert (H1' : size (tEmbedding.weight (Embedding.base (run_calls s cs))) 1 = Z.to_nat dim)
    by (unfold size in *; rewrite Hsh; exact H1).
  split; [apply merge_lora_weight_shape, Hwf'|].
  rewrite <- H0' in Hin.
  destruct (forward_succeeds (run_calls s cs) x Hwf' Hx Hnd Hin) as [out Hout].
  exists out. split; [exact Hout|].
  rewrite <- H1'. apply (forward_result_shape (run_calls s cs) x Hwf' Hout).
Qed.

Lemma constructed_layer_stays_usable_witness :
  snd (Embedding.merge_lora
         (run_calls Examples.fresh_layer
            [CallForward Examples.x_scalar; CallMerge; CallForward Examples.x_vec])) = Ok tt
  /\ exists out,
       snd (Embedding.forward
              (run_calls Examples.fresh_layer
                 [CallForward Examples.x_scalar; CallMerge; CallForward Examples.x_vec])
              Examples.x_mat) = Ok out
       /\ shape out = [2; 2; 2]%nat.
Proof.
  apply (@constructed_layer_stays_usable float_scalar 3%Z 2%Z None None 2%float false false
           2%Z 1%float (Some (-1)%Z) Examples.draw_w Examples.draw_b Examples.fresh_layer
           [CallForward Examples.x_scalar; CallMerge; CallForward Examples.x_vec]
           Examples.x_mat).
  - vm_compute. reflexivity.
  - reflexivity.
  - cbn. lia.
  - reflexivity.
Defined.

(** ** [EncoderLayer.forward] *)

(** X13.  With [need_embedding=False] the layer returns [None] for the
    embedding and never runs the residual addition, [norm2], the dropouts or
    the feed-forward block: two layers that share [self_attn], [norm1] and
    [norm_first] return the same result, whatever their other sublayers and
    whatever the addition does. *)
Theorem forward_without_embedding_skips_feed_forward {SC : Scalar}
        (add add' : tensor F -> tensor F -> result (tensor F))
        (self self' : EncoderLayer.t) (x attn_mask : tensor F) (hidden : option (tensor F))
        (need_weights : bool) :
  EncoderLayer.self_attn self = EncoderLayer.self_attn self' ->
  EncoderLayer.norm1 self = EncoderLayer.norm1 self' ->
  EncoderLayer.norm_first self = EncoderLayer.norm_first self' ->
  EncoderLayer.forward add self x attn_mask hidden false need_weights
  = EncoderLayer.forward add' self' x attn_mask hidden false need_weights
  /\ forall o a,
       EncoderLayer.forward add self x attn_mask hidden false need_weights = Ok (o, a) ->
       o = None.
Proof.
  intros Ha Hn Hf. split.
  - unfold EncoderLayer.forward, EncoderLayer.attention_inputs. rewrite Ha, Hn, Hf.
    reflexivity.
  - intros o a. unfold EncoderLayer.forward.
    destruct (EncoderLayer.attention_inputs self x hidden) as [qkv|e]; cbn [bind];
      [|discriminate].
    destruct (EncoderLayer.self_attn self (fst qkv) (snd qkv) attn_mask need_weights)
      as [[e1 a1]|e]; cbn [bind]; [|discriminate].
    intros H. injection H as <- _. reflexivity.
Qed.

Lemma forward_without_embedding_skips_feed_forward_witness :
  EncoderLayer.forward iadd (Examples.probe_layer false) Examples.seg Examples.seg
    (Some Examples.cache) false true
  = EncoderLayer.forward (fun _ _ => Raise RuntimeError)
      (EncoderLayer.mk (EncoderLayer.self_attn (Examples.probe_layer false))
         (fun _ => Raise ValueError) (fun _ => Raise ValueError)
         (EncoderLayer.norm1 (Examples.probe_layer false)) (fun _ => Raise ValueError)
         (fun _ => Raise ValueError) (fun _ => Raise ValueError) (fun _ => Raise ValueError)
         (fun _ => Raise ValueError) false)
      Examples.seg Examples.seg (Some Examples.cache) false true.
Proof.
  apply (@forward_without_embedding_skips_feed_forward float_scalar); reflexivity.
Defined.

(** X14.  The attention weights do not depend on [need_embedding]: when the
    full pass returns an embedding and weights [a], the pass with
    [need_embedding=False] on the same arguments returns [(None, a)]; and
    the full pass never returns [None] for the embedding. *)
Theorem forward_weights_independent_of_need_embedding {SC : Scalar}
        (add : tensor F -> tensor F -> result (tensor F))
        (self : EncoderLayer.t) (x attn_mask : tensor F) (hidden : option (tensor F))
        (need_weights : bool) (o a : option (tensor F)) :
  EncoderLayer.forward add self x attn_mask hidden true need_weights = Ok (o, a) ->
  o <> None
  /\ EncoderLayer.forward add self x attn_mask hidden false need_weights = Ok (None, a).
Proof.
  unfold EncoderLayer.forward.
  destruct (EncoderLayer.attention_inputs self x hidden) as [qkv|e]; cbn [bind];
    [|discriminate].
  destruct (EncoderLayer.self_attn self (fst qkv) (snd qkv) attn_mask need_weights)
    as [[e1 a1]|e]; cbn [bind]; [|discriminate].
  destruct (EncoderLayer.dropout1 self e1) as [de|e]; cbn [bind]; [|discriminate].
  destruct (add x de) as [x1|e]; cbn [bind]; [|discriminate].
  destruct (EncoderLayer.norm_first self).
  - destruct (EncoderLayer.norm2 self x1) as [n2|e]; cbn [bind]; [|discriminate].
    destruct (EncoderLayer._ff self n2) as [f|e]; cbn [bind]; [|discriminate].
    destruct (add x1 f) as [o1|e]; cbn [bind]; [|discriminate].
    intros H. injection H as <- <-. split; [discriminate | reflexivity].
  - destruct (EncoderLayer.norm1 self x1) as [x2|e]; cbn [bind]; [|discriminate].
    destruct (EncoderLayer._ff self x2) as [f|e]; cbn [bind]; [|discriminate].
    destruct (add x2 f) as [s1|e]; cbn [bind]; [|discriminate].
    destruct (EncoderLayer.norm2 self s1) as [o1|e]; cbn [bind]; [|discriminate].
    intros H. injection H as <- <-. split; [discriminate | reflexivity].
Qed.

Lemma forward_weights_independent_of_need_embedding_witness :
  EncoderLayer.forward iadd (Examples.probe_layer true) Examples.seg Examples.seg
    (Some Examples.cache) false true
  = Ok (None, Some (mkTensor [4; 1; 1]%nat [1; 2; 3; 4]%float)).
Proof.
  apply (@forward_weights_independent_of_need_embedding float_scalar iadd
           (Examples.probe_layer true) Examples.seg Examples.seg (Some Examples.cache) true
           (Some (mkTensor [2; 1; 1]%nat [12; 16]%float))
           (Some (mkTensor [4; 1; 1]%nat [1; 2; 3; 4]%float))).
  vm_compute. reflexivity.
Defined.

Section Cache.
Context {SC : Scalar}.

Lemma cat_pair_dim0 (a b : tensor F) (n m : nat) (tl : list nat) :
  shape a = n :: tl -> shape b = m :: tl ->
  wf_tensor a = true -> wf_tensor b = true ->
  exists kv, cat [a; b] 0 = Ok kv
             /\ shape kv = (n + m)%nat :: tl /\ data kv = data a ++ data b.
Proof.
  intros Ha Hb Hwa Hwb. unfold wf_tensor in Hwa, Hwb.
  apply Nat.eqb_eq in Hwa. apply Nat.eqb_eq in Hwb.
  unfold cat, cat_from, cat2, ndim, size. rewrite Ha, Hb. cbn [length Nat.eqb orb bind].
  destruct (shape_eqb (n :: tl) [0%nat]) eqn:Ea.
  { apply shape_eqb_eq in Ea. injection Ea as -> ->.
    rewrite Ha in Hwa. cbn in Hwa. destruct (data a); [|discriminate].
    exists b. split; [reflexivity|]. split; [exact Hb | reflexivity]. }
  destruct (shape_eqb (m :: tl) [0%nat]) eqn:Eb.
  { apply shape_eqb_eq in Eb. injection Eb as -> ->.
    rewrite Hb in Hwb. cbn in Hwb. destruct (data b); [|discriminate].
    exists a. split; [reflexivity|].
    split; [rewrite Ha, Nat.add_0_r; reflexivity | rewrite app_nil_r; reflexivity]. }
  rewrite Nat.eqb_refl. cbn [negb Nat.ltb Nat.leb firstn skipn shape_eqb andb nth].
  rewrite shape_eqb_refl. cbn [negb numel fold_right seq map concat app].
  eexists. split; [reflexivity|]. cbn [shape data]. split; [reflexivity|].
  unfold slice. cbn [Nat.mul skipn]. rewrite app_nil_r.
  rewrite Ha in Hwa. rewrite Hb in Hwb. cbn [numel fold_right] in Hwa, Hwb.
  rewrite <- Hwa, <- Hwb, !firstn_all. reflexivity.
Qed.

End Cache.

(** X15.  With a cache, the query is the current segment and the key-value
    sequence is the cache followed by the current segment, both after
    [norm1] in pre-norm mode: for tensors of shapes [n :: tl] and
    [m :: tl] the key-value tensor has shape [(n + m) :: tl] and its
    elements are those of the cache, then those of the segment, in order. *)
Theorem attention_inputs_with_cache {SC : Scalar}
        (self : EncoderLayer.t) (x h nx nh : tensor F) (n m : nat) (tl : list nat) :
  (if EncoderLayer.norm_first self then EncoderLayer.norm1 self x else Ok x) = Ok nx ->
  (if EncoderLayer.norm_first self then EncoderLayer.norm1 self h else Ok h) = Ok nh ->
  shape nh = n :: tl -> shape nx = m :: tl ->
  wf_tensor nh = true -> wf_tensor nx = true ->
  EncoderLayer.attention_inputs self x (Some h)
  = Ok (nx, mkTensor ((n + m)%nat :: tl) (data nh ++ data nx)).
Proof.
  intros Hx Hh Hsh Hsx Hwh Hwx. unfold EncoderLayer.attention_inputs.
  rewrite Hx. cbn [bind]. rewrite Hh. cbn [bind].
  destruct (cat_pair_dim0 nh nx Hsh Hsx Hwh Hwx) as (kv & Hkv & Hs & Hd).
  rewrite Hkv. cbn [bind]. destruct kv as [ks kd]. cbn [shape data] in Hs, Hd.
  subst. reflexivity.
Qed.

Lemma attention_inputs_with_cache_witness :
  EncoderLayer.attention_inputs (Examples.probe_layer false) Examples.seg (Some Examples.cache)
  = Ok (Examples.seg, mkTensor [4; 1; 1]%nat [1; 2; 3; 4]%float).
Proof.
  apply (@attention_inputs_with_cache float_scalar (Examples.probe_layer false)
           Examples.seg Examples.cache Examples.seg Examples.cache 2 2 [1; 1]%nat);
    reflexivity.
Defined.

(** ** [EncoderLayer.merge_lora] *)



(** X17.  When merging a sublayer a second time changes nothing and returns
    normally (as [Embedding.merge_lora] does), the same holds for the whole
    layer: after a [merge_lora] that returned normally, a second
    [merge_lora] returns normally and leaves the layer as it is. *)
Theorem encoder_merge_lora_idempotent {SC : Scalar} (Attn Lin : Type)
        (attn_merge_lora : Attn -> Attn * result unit)
        (lin_merge_lora : Lin -> Lin * result unit)
        (self self' : @EncoderLayerObject.t SC Attn Lin) :
  (forall a a', attn_merge_lora a = (a', Ok tt) -> attn_merge_lora a' = (a', Ok tt)) ->
  (forall l l', lin_merge_lora l = (l', Ok tt) -> lin_merge_lora l' = (l', Ok tt)) ->
  EncoderLayerObject.merge_lora attn_merge_lora lin_merge_lora self = (self', Ok tt) ->
  EncoderLayerObject.merge_lora attn_merge_lora lin_merge_lora self' = (self', Ok tt).
Proof.
  intros Ia Il. unfold EncoderLayerObject.merge_lora at 1.
  destruct (attn_merge_lora (EncoderLayerObject.self_attn self)) as [a' r0] eqn:Ea.
  destruct r0 as [[]|e]; [|discriminate].
  cbn [EncoderLayerObject.set_self_attn EncoderLayerObject.set_linear1
       EncoderLayerObject.linear1 EncoderLayerObject.linear2].
  destruct (lin_merge_lora (EncoderLayerObject.linear1 self)) as [l1' r1] eqn:E1.
  destruct r1 as [[]|e]; [|discriminate].
  cbn [EncoderLayerObject.set_self_attn EncoderLayerObject.set_linear1
       EncoderLayerObject.linear1 EncoderLayerObject.linear2].
  destruct (lin_merge_lora (EncoderLayerObject.linear2 self)) as [l2' r2] eqn:E2.
  intros H. injection H as <- ->.
  unfold EncoderLayerObject.merge_lora, EncoderLayerObject.set_linear2.
  cbn [EncoderLayerObject.self_attn EncoderLayerObject.linear1 EncoderLayerObject.linear2
       EncoderLayerObject.set_self_attn EncoderLayerObject.set_linear1].
  rewrite (Ia _ _ Ea).
  cbn [EncoderLayerObject.self_attn EncoderLayerObject.linear1 EncoderLayerObject.linear2
       EncoderLayerObject.set_self_attn EncoderLayerObject.set_linear1].
  rewrite (Il _ _ E1).
  cbn [EncoderLayerObject.self_attn EncoderLayerObject.linear1 EncoderLayerObject.linear2
       EncoderLayerObject.set_self_attn EncoderLayerObject.set_linear1].
  rewrite (Il _ _ E2). reflexivity.
Qed.

Lemma encoder_merge_lora_idempotent_witness :
  EncoderLayerObject.merge_lora EncoderLayerObject.toy_merge_lora
    EncoderLayerObject.toy_merge_lora
    (fst (EncoderLayerObject.merge_lora EncoderLayerObject.toy_merge_lora
            EncoderLayerObject.toy_merge_lora
            (@EncoderLayerObject.toy_layer float_scalar 4 4 4)))
  = (fst (EncoderLayerObject.merge_lora EncoderLayerObject.toy_merge_lora
            EncoderLayerObject.toy_merge_lora
            (@EncoderLayerObject.toy_layer float_scalar 4 4 4)),
     Ok tt).
Proof.
  apply (@encoder_merge_lora_idempotent float_scalar Z Z EncoderLayerObject.toy_merge_lora
           EncoderLayerObject.toy_merge_lora (EncoderLayerObject.toy_layer 4 4 4)).
  - intros a a' H. unfold EncoderLayerObject.toy_merge_lora in H.
    destruct (a <? 0)%Z; [discriminate H|]. injection H as <-. reflexivity.
  - intros l l' H. unfold EncoderLayerObject.toy_merge_lora in H.
    destruct (l <? 0)%Z; [discriminate H|]. injection H as <-. reflexivity.
  - reflexivity.
Defined.

(** ** [Embedding]: merging an untrained adapter *)

Section MergeFresh.
Context {SC : Scalar}.

Lemma matrix_as_table (t : tensor F) :
  is_matrix t = true ->
  t = mkTensor [size t 0; size t 1] (tabulate2 (size t 0) (size t 1) (get2 t)).
Proof.
  intros Hm. destruct (is_matrix_shape _ Hm) as [Hs Hl].
  destruct t as [shp dat]. cbn [shape data] in *. rewrite <- Hs. f_equal.
  apply (nth_ext _ _ zero zero).
  - rewrite length_tabulate2. exact Hl.
  - intros k Hk. rewrite Hl in Hk. rewrite nth_tabulate2_flat by exact Hk.
    unfold get2. cbn [data].
    assert (Hd : size {| shape := shp; data := dat |} 1 <> 0%nat) by (intros E; rewrite E in Hk; lia).
    f_equal. rewrite (Nat.div_mod_eq k (size {| shape := shp; data := dat |} 1)) at 1. lia.
Qed.

Lemma merged_weight_zero_factor (w b : tensor F) (sc : F) (r : nat) :
  is_matrix w = true -> is_matrix b = true ->
  size b 0 = size w 1 -> size b 1 = r ->
  Forall (fun v => fadd zero (fmul zero v) = zero) (data b) ->
  Forall (fun e => fadd e (fmul zero sc) = e) (data w) ->
  merged_weight_spec w
    (mkTensor [size w 0; r] (tabulate2 (size w 0) r (fun _ _ => zero))) b sc = w.
Proof.
  intros Hmw Hmb Hb0 Hb1 Hdot Hadd.
  rewrite (matrix_as_table w Hmw) at 4.
  destruct (is_matrix_shape _ Hmw) as [Hs _].
  unfold merged_weight_spec. rewrite Hs at 1. f_equal.
  apply tabulate2_ext. intros i j Hi Hj.
  rewrite Forall_forall in Hdot, Hadd.
  replace (size (mkTensor [size w 0; r] (tabulate2 (size w 0) r (fun _ _ => zero))) 1)
    with r by reflexivity.
  rewrite dot_zero.
  - apply Hadd, get2_In; assumption.
  - intros k Hk. apply (get2_tabulate (fun _ _ => zero)); assumption.
  - intros k Hk. apply Hdot, get2_In; [exact Hmb | lia | lia].
Qed.

End MergeFresh.

(** X18.  Merging an untrained adapter gives the plain layer.  A layer
    constructed with LoRA and merged at once is the layer that the
    constructor builds with [lora_r = 0] from the same draw of the base
    table, provided the scalars absorb the zero correction: [0 + 0 * b] is
    [0] for the entries [b] of factor B and [e + 0 * scaling] is [e] for the
    entries [e] of the base table. *)
Theorem merge_after_init_is_plain_init {SC : Scalar}
        num dim pad mn p sg sp (r : Z) alpha ninf nw nb (s : Embedding.t) :
  Embedding.__init__ num dim pad mn p sg sp r alpha ninf nw nb = Ok s ->
  (forall i j, (i < Z.to_nat dim)%nat -> (j < Z.to_nat r)%nat ->
               fadd zero (fmul zero (nb i j)) = zero) ->
  Forall (fun e => fadd e (fmul zero (fdiv alpha (of_Z r))) = e)
         (data (tEmbedding.weight (Embedding.base s))) ->
  snd (Embedding.merge_lora s) = Ok tt
  /\ Embedding.__init__ num dim pad mn p sg sp 0 alpha ninf nw nb
     = Ok (fst (Embedding.merge_lora s)).
Proof.
  intros Hinit Hdot Hadd.
  destruct (init_wf _ _ _ _ _ _ _ _ _ _ _ _ Hinit) as (Hwf & Hs0 & Hs1 & _).
  pose proof Hinit as Hinv.
  apply Embedding_init_inv in Hinv as (b0 & w1 & Hb0 & Hw1 & Hs).
  assert (Hplain : Embedding.__init__ num dim pad mn p sg sp 0 alpha ninf nw nb
                   = Ok (Embedding.mk (tEmbedding.set_weight b0 w1) ninf 0 None None None None)).
  { unfold Embedding.__init__. rewrite Hb0. cbn [bind].
    destruct ninf as [z|].
    - destruct Hw1 as (k & Hk & ->). unfold index_int.
      rewrite (@Embedding_init_sentinel_fits _ num dim pad mn p sg sp r alpha z nw nb s Hinit).
      rewrite Hk. reflexivity.
    - subst w1. cbn [bind Z.eqb]. destruct b0; reflexivity. }
  destruct Hs as [[-> ->] | [Hr Es]].
  - cbn [Embedding.merge_lora Embedding.lora_r Z.eqb fst snd]. split; [reflexivity | exact Hplain].
  - set (A0 := mkTensor [Z.to_nat num; Z.to_nat r]
                 (tabulate2 (Z.to_nat num) (Z.to_nat r) (fun _ _ => zero))) in *.
    set (B0 := mkTensor [Z.to_nat dim; Z.to_nat r]
                 (tabulate2 (Z.to_nat dim) (Z.to_nat r) nb)) in *.
    assert (Hr' : Embedding.lora_r s <> 0%Z) by (rewrite Es; cbn; lia).
    rewrite (@merge_lora_active _ s A0 B0 alpha (fdiv alpha (of_Z r)) Hwf Hr')
      by (rewrite Es; reflexivity).
    cbn [fst snd]. split; [reflexivity|]. rewrite Hplain. f_equal.
    destruct (wf_base s Hwf) as [Hmw _].
    assert (Hmerged : merged_weight_spec (tEmbedding.weight (Embedding.base s)) A0 B0
                        (fdiv alpha (of_Z r))
                      = tEmbedding.weight (Embedding.base s)).
    { unfold A0. rewrite <- Hs0.
      apply merged_weight_zero_factor.
      - exact Hmw.
      - apply is_matrix_intro, length_tabulate2.
      - rewrite Hs1. reflexivity.
      - reflexivity.
      - apply Forall_tabulate2. exact Hdot.
      - exact Hadd. }
    rewrite Hmerged.
    apply tEmbedding_init_inv in Hb0 as (_ & _ & _ & _ & _ & Hg & _).
    rewrite Es. cbn. destruct b0. cbn in Hg |- *. rewrite Hg. reflexivity.
Qed.

Lemma merge_after_init_is_plain_init_witness :
  snd (Embedding.merge_lora Examples.fresh_layer) = Ok tt
  /\ Embedding.__init__ 3 2 None None 2%float false false 0 1%float (Some (-1)%Z)
       Examples.draw_w Examples.draw_b
     = Ok (fst (Embedding.merge_lora Examples.fresh_layer)).
Proof.
  apply (@merge_after_init_is_plain_init float_scalar 3%Z 2%Z None None 2%float false false
           2%Z 1%float (Some (-1)%Z) Examples.draw_w Examples.draw_b Examples.fresh_layer).
  - vm_compute. reflexivity.
  - intros i j Hi Hj. cbn in Hi, Hj.
    destruct i as [|[|i]]; [| |lia]; destruct j as [|[|j]]; [| |lia| | |lia];
      vm_compute; reflexivity.
  - repeat constructor.
Defined.

(** ** [Embedding.extra_repr] *)

(** X19.  [extra_repr] does not fail on a well-formed layer: [lora_alpha]
    is read only while the rank is not zero, and it is present then.  After
    [merge_lora], which deletes [lora_alpha], [extra_repr] returns the
    parent's description with nothing appended. *)
Theorem extra_repr_never_raises {SC : Scalar}
        (parent_extra_repr : tEmbedding.t -> String.string)
        (format_int : Z -> String.string) (format_float : F -> String.string)
        (s : Embedding.t) :
  wf s = true ->
  (exists str, EmbeddingRepr.extra_repr parent_extra_repr format_int format_float s = Ok str)
  /\ EmbeddingRepr.extra_repr parent_extra_repr format_int format_float
       (fst (Embedding.merge_lora s))
     = Ok (parent_extra_repr (Embedding.base (fst (Embedding.merge_lora s)))).
Proof.
  intros Hwf. unfold EmbeddingRepr.extra_repr.
  destruct (Z.eq_dec (Embedding.lora_r s) 0) as [Hr|Hr].
  - unfold Embedding.merge_lora. rewrite Hr. cbn [Z.eqb fst]. rewrite Hr. cbn [Z.eqb].
    split; [eexists|]; reflexivity.
  - destruct (wf_active s Hwf Hr) as (a & b & al & sc & Ha & Hb & Hal & Hsc & _).
    rewrite (merge_lora_active s Hwf Hr Ha Hb Hal Hsc). cbn [fst Embedding.lora_r Z.eqb].
    split; [|reflexivity].
    apply Z.eqb_neq in Hr. rewrite Hr, Hal. cbn [getattr bind]. eexists. reflexivity.
Qed.

Lemma extra_repr_never_raises_witness :
  EmbeddingRepr.extra_repr EmbeddingRepr.sample_parent_repr EmbeddingRepr.sample_format_int
    EmbeddingRepr.sample_format_float (fst (Embedding.merge_lora Examples.trained_layer))
  = Ok (EmbeddingRepr.sample_parent_repr
          (Embedding.base (fst (Embedding.merge_lora Examples.trained_layer)))).
Proof.
  apply (proj2 (@extra_repr_never_raises float_scalar EmbeddingRepr.sample_parent_repr
                  EmbeddingRepr.sample_format_int EmbeddingRepr.sample_format_float
                  Examples.trained_layer eq_refl)).
Defined.
